(** * Quantum Tutor: the single-qubit numerical core and its orchestration

    A shallow embedding of [QuantumTutorMVP.jsx]: complex helpers, the gate
    table, the Bloch-angle projection and the circuit handlers of the React
    component, followed by the properties checked against the specification.

    Numbers.  A JavaScript number is modelled by [num]: a real number, or one
    of the three non-finite values [PInf], [NInf], [NaN].  Arithmetic on
    finite values is exact (no rounding, and overflow never happens); the
    non-finite values follow the IEEE 754 rules the engine applies
    (1/0 = Infinity, 0 * Infinity = NaN, every comparison with NaN is false).
    The reals have a single zero.  The one operation of the program that
    tells -0 from +0 is [Math.atan2]; the sign bits it reads are passed to it
    beside the numbers (see [natan2]).  The one division of the program
    divides by a square root, which is never -0, and every other operation
    gives the same number for either zero. *)

From Stdlib Require Import Reals Lra Lia ZArith List String Bool.
From Equations Require Import Equations.
Import ListNotations.

Local Open Scope R_scope.

(* ------------------------------------------------------------------ *)
(** ** Numbers *)

Inductive num : Type :=
| Fin (x : R)
| PInf
| NInf
| NaN.

Definition Rltb (x y : R) : bool := if Rlt_dec x y then true else false.
Definition Rleb (x y : R) : bool := if Rle_dec x y then true else false.
Definition Reqb (x y : R) : bool := if Req_dec_T x y then true else false.

(** Sign of a finite factor against an infinity: [0 * Infinity] is [NaN]. *)
Definition inf_of_sign (x : R) (pos neg : num) : num :=
  if Reqb x 0 then NaN else if Rltb 0 x then pos else neg.

Definition nneg (a : num) : num :=
  match a with
  | Fin x => Fin (- x)
  | PInf => NInf
  | NInf => PInf
  | NaN => NaN
  end.

Definition nadd (a b : num) : num :=
  match a, b with
  | NaN, _ | _, NaN => NaN
  | Fin x, Fin y => Fin (x + y)
  | PInf, NInf | NInf, PInf => NaN
  | PInf, _ | _, PInf => PInf
  | NInf, _ | _, NInf => NInf
  end.

Definition nsub (a b : num) : num := nadd a (nneg b).

Definition nmul (a b : num) : num :=
  match a, b with
  | NaN, _ | _, NaN => NaN
  | Fin x, Fin y => Fin (x * y)
  | Fin x, PInf | PInf, Fin x => inf_of_sign x PInf NInf
  | Fin x, NInf | NInf, Fin x => inf_of_sign x NInf PInf
  | PInf, PInf | NInf, NInf => PInf
  | PInf, NInf | NInf, PInf => NInf
  end.

Definition ndiv (a b : num) : num :=
  match a, b with
  | NaN, _ | _, NaN => NaN
  | Fin x, Fin y =>
      if Reqb y 0 then inf_of_sign x PInf NInf else Fin (x / y)
  | Fin _, _ => Fin 0
  | PInf, Fin y => if Rltb y 0 then NInf else PInf
  | NInf, Fin y => if Rltb y 0 then PInf else NInf
  | _, _ => NaN
  end.

(** [a < b] of the language: false as soon as one side is [NaN]. *)
Definition nltb (a b : num) : bool :=
  match a, b with
  | NaN, _ | _, NaN => false
  | Fin x, Fin y => Rltb x y
  | NInf, NInf => false
  | NInf, _ => true
  | _, NInf => false
  | PInf, _ => false
  | _, PInf => true
  end.

(** [Math.sqrt] *)
Definition nsqrt (a : num) : num :=
  match a with
  | Fin x => if Rltb x 0 then NaN else Fin (sqrt x)
  | PInf => PInf
  | NInf | NaN => NaN
  end.

(** [Math.min] and [Math.max]: [NaN] as soon as one argument is. *)
Definition nmin (a b : num) : num :=
  match a, b with
  | NaN, _ | _, NaN => NaN
  | Fin x, Fin y => Fin (Rmin x y)
  | NInf, _ | _, NInf => NInf
  | PInf, c | c, PInf => c
  end.

Definition nmax (a b : num) : num :=
  match a, b with
  | NaN, _ | _, NaN => NaN
  | Fin x, Fin y => Fin (Rmax x y)
  | PInf, _ | _, PInf => PInf
  | NInf, c | c, NInf => c
  end.

(** [Math.acos]: defined on [-1, 1] only. *)
Definition nacos (a : num) : num :=
  match a with
  | Fin x => if Rleb (-1) x && Rleb x 1 then Fin (acos x) else NaN
  | _ => NaN
  end.

(** [Math.cos], [Math.sin] *)
Definition ncos (a : num) : num :=
  match a with Fin x => Fin (cos x) | _ => NaN end.

Definition nsin (a : num) : num :=
  match a with Fin x => Fin (sin x) | _ => NaN end.

(** The sign bit of a number: the sign of a nonzero real, and the bit [s]
    carried beside it when the number is a zero ([true] for -0). *)
Definition negative (s : bool) (x : R) : bool :=
  if Reqb x 0 then s else Rltb x 0.

(** The two-argument arctangent with signed zeros: the angle of the point
    [(x, y)].  On the negative real axis it is [PI] or [-PI] by the sign
    bit of [y]; at the origin it is [0] for [x = +0] and [PI] or [-PI] for
    [x = -0]. *)
Definition atan2_signed (sy sx : bool) (y x : R) : R :=
  if Rltb 0 x then atan (y / x)
  else if Rltb x 0 then
    (if negative sy y then atan (y / x) - PI else atan (y / x) + PI)
  else if Rltb 0 y then PI / 2
  else if Rltb y 0 then - (PI / 2)
  else if sx then (if sy then - PI else PI)
  else 0.

(** [Math.atan2 y x], with [sy] and [sx] the sign bits of [y] and [x]. *)
Definition natan2 (sy sx : bool) (y x : num) : num :=
  match y, x with
  | NaN, _ | _, NaN => NaN
  | Fin b, Fin a => Fin (atan2_signed sy sx b a)
  | Fin b, PInf => Fin 0
  | Fin b, NInf => if negative sy b then Fin (- PI) else Fin PI
  | PInf, Fin _ => Fin (PI / 2)
  | NInf, Fin _ => Fin (- (PI / 2))
  | PInf, PInf => Fin (PI / 4)
  | NInf, PInf => Fin (- (PI / 4))
  | PInf, NInf => Fin (3 * PI / 4)
  | NInf, NInf => Fin (- (3 * PI / 4))
  end.

(** [Math.PI] *)
Definition Math_PI : num := Fin PI.

(* ------------------------------------------------------------------ *)
(** ** Small complex number and matrix helpers *)

Record cplx : Type := mkC { re : num; im : num }.

(** [const C = (re, im = 0) => ({ re, im })]; [C1] is the call with the
    second argument left to its default. *)
Definition C (re im : num) : cplx := mkC re im.
Definition C1 (re : num) : cplx := C re (Fin 0).

Definition add (a b : cplx) : cplx := C (nadd (re a) (re b)) (nadd (im a) (im b)).
Definition sub (a b : cplx) : cplx := C (nsub (re a) (re b)) (nsub (im a) (im b)).
Definition mul (a b : cplx) : cplx :=
  C (nsub (nmul (re a) (re b)) (nmul (im a) (im b)))
    (nadd (nmul (re a) (im b)) (nmul (im a) (re b))).
Definition scale (a : cplx) (k : num) : cplx := C (nmul (re a) k) (nmul (im a) k).
Definition conj (a : cplx) : cplx := C (re a) (nneg (im a)).
Definition abs2 (a : cplx) : num :=
  nadd (nmul (re a) (re a)) (nmul (im a) (im a)).

(** Every vector of the program is a two-element array literal. *)
Definition vec : Type := (cplx * cplx)%type.

(** A matrix entry is an object or [undefined]; [matMul] tests it for
    truthiness, and an object is always truthy. *)
Definition mat : Type := ((option cplx * option cplx) * (option cplx * option cplx))%type.

Definition dot (v1 v2 : vec) : cplx :=
  add (add (C (Fin 0) (Fin 0)) (mul (conj (fst v1)) (fst v2)))
      (mul (conj (snd v1)) (snd v2)).

Definition entry_times (e : option cplx) (x : cplx) : cplx :=
  match e with
  | Some c => mul c x
  | None => C (Fin 0) (Fin 0)
  end.

Definition matMul (m : mat) (v : vec) : vec :=
  ( add (entry_times (fst (fst m)) (fst v)) (entry_times (snd (fst m)) (snd v)),
    add (entry_times (fst (snd m)) (fst v)) (entry_times (snd (snd m)) (snd v)) ).

Definition norm (v : vec) : vec :=
  let s := nsqrt (nadd (abs2 (fst v)) (abs2 (snd v))) in
  ( scale (fst v) (ndiv (Fin 1) s), scale (snd v) (ndiv (Fin 1) s) ).

(* ------------------------------------------------------------------ *)
(** ** Gate definitions *)

Local Open Scope string_scope.

Record gate_def : Type := mkGate {
  name : string;
  matrix : mat;
  description : string
}.

Definition full (a b c d : cplx) : mat := ((Some a, Some b), (Some c, Some d)).

Definition gate_I : gate_def :=
  mkGate "I" (full (C1 (Fin 1)) (C1 (Fin 0)) (C1 (Fin 0)) (C1 (Fin 1)))
         "Identity - does nothing".
Definition gate_X : gate_def :=
  mkGate "X" (full (C1 (Fin 0)) (C1 (Fin 1)) (C1 (Fin 1)) (C1 (Fin 0)))
         "Pauli-X (bit-flip)".
Definition gate_Z : gate_def :=
  mkGate "Z" (full (C1 (Fin 1)) (C1 (Fin 0)) (C1 (Fin 0)) (C1 (Fin (-1))))
         "Pauli-Z (phase flip)".
Definition gate_H : gate_def :=
  mkGate "H" (full (C1 (ndiv (Fin 1) (nsqrt (Fin 2)))) (C1 (Fin 0))
                   (C1 (ndiv (Fin 1) (nsqrt (Fin 2)))) (C1 (Fin 0)))
         "Hadamard - makes superposition".
Definition gate_S : gate_def :=
  mkGate "S" (full (C1 (Fin 1)) (C1 (Fin 0)) (C1 (Fin 0)) (C (Fin 0) (Fin 1)))
         "Phase gate S (90°)".
Definition gate_T : gate_def :=
  mkGate "T" (full (C1 (Fin 1)) (C1 (Fin 0)) (C1 (Fin 0))
                   (C (ncos (ndiv Math_PI (Fin 4))) (nsin (ndiv Math_PI (Fin 4)))))
         "T gate (45°)".

(** The own properties of the object literal [GATES], in source order. *)
Definition GATES : list (string * gate_def) :=
  [ ("I", gate_I); ("X", gate_X); ("Z", gate_Z);
    ("H", gate_H); ("S", gate_S); ("T", gate_T) ].

(** [GATES] is an ordinary object, so a property read that finds no own
    property continues in [Object.prototype].  These are the names that
    object carries: the standard ones and the legacy accessors engines ship. *)
Definition Object_prototype : list string :=
  [ "constructor"; "hasOwnProperty"; "isPrototypeOf"; "propertyIsEnumerable";
    "toLocaleString"; "toString"; "valueOf"; "__proto__";
    "__defineGetter__"; "__defineSetter__"; "__lookupGetter__"; "__lookupSetter__" ].

(** What [GATES[gname]] evaluates to. *)
Inductive lookup_result : Type :=
| LGate (g : gate_def)  (* an entry of the table *)
| LInherited            (* a function or object of [Object.prototype]: truthy,
                           and it has no [matrix] property *)
| LUndefined.

Fixpoint own_property (k : string) (o : list (string * gate_def)) : option gate_def :=
  match o with
  | [] => None
  | (k', g) :: o' => if String.eqb k k' then Some g else own_property k o'
  end.

Definition GATES_get (gname : string) : lookup_result :=
  match own_property gname GATES with
  | Some g => LGate g
  | None =>
      if existsb (String.eqb gname) Object_prototype then LInherited else LUndefined
  end.

(** [gate.matrix] *)
Definition matrix_of (l : lookup_result) : option mat :=
  match l with
  | LGate g => Some (matrix g)
  | _ => None
  end.

(* ------------------------------------------------------------------ *)
(** ** Exceptions *)

Inductive exn : Type := TypeError.

Inductive result (A : Type) : Type :=
| Ok (a : A)
| Throw (e : exn).
Arguments Ok {A} a.
Arguments Throw {A} e.

Definition bind {A B} (r : result A) (k : A -> result B) : result B :=
  match r with
  | Ok a => k a
  | Throw e => Throw e
  end.

Definition rmap {A B} (f : A -> B) (r : result A) : result B :=
  bind r (fun a => Ok (f a)).

Notation "x <- r ;; k" := (bind r (fun x => k))
  (at level 61, r at next level, right associativity).

(* ------------------------------------------------------------------ *)
(** ** Bloch sphere helpers *)

Record angles : Type := mkAngles { theta : num; phi : num }.

(** The sign bits of the two parts of a complex number, read where a part
    is a zero. *)
Record signs : Type := mkSigns { re_neg : bool; im_neg : bool }.

(** [stateToBlochAngles([a, b])], with [sa] and [sb] the sign bits of the
    parts of [a] and [b]. *)
Definition stateToBlochAngles (sa sb : signs) (st : vec) : angles :=
  let '(a, b) := st in
  let ra := nsqrt (abs2 a) in
  let rb := nsqrt (abs2 b) in
  let theta := nmul (Fin 2) (nacos (nmin (Fin 1) (nmax (Fin (-1)) ra))) in
  let arg := fun (sz : signs) (z : cplx) =>
               natan2 (im_neg sz) (re_neg sz) (im z) (re z) in
  let phi := nsub (arg sb b) (arg sa a) in
  mkAngles theta phi.

Record point : Type := mkPoint { px : num; py : num; pz : num }.

Definition blochToXY (theta phi : num) : point :=
  mkPoint (nmul (nsin theta) (ncos phi)) (nmul (nsin theta) (nsin phi)) (ncos theta).

(* ------------------------------------------------------------------ *)
(** ** The component: state and handlers *)

Module Entry.
Record t : Type := mk { gate : string; state : vec }.
End Entry.

Definition zero : vec := (C (Fin 1) (Fin 0), C (Fin 0) (Fin 0)).
Definition one : vec := (C (Fin 0) (Fin 0), C (Fin 1) (Fin 0)).

(** The values held by the component's [useState] hooks.  A handler reads
    the values of the current render and its setters take effect together
    afterwards, so a handler is a function from one record to the next. *)
Record session : Type := mkSession {
  state : vec;
  circuit : list string;
  history : list Entry.t;
  selectedGate : string;
  measurement : option nat
}.

Definition init : session := mkSession zero [] [] "H" None.

Definition setState (st : vec) (s : session) : session :=
  mkSession st (circuit s) (history s) (selectedGate s) (measurement s).
Definition setCircuit (c : list string) (s : session) : session :=
  mkSession (state s) c (history s) (selectedGate s) (measurement s).
Definition setHistory (h : list Entry.t) (s : session) : session :=
  mkSession (state s) (circuit s) h (selectedGate s) (measurement s).
Definition setMeasurement (m : option nat) (s : session) : session :=
  mkSession (state s) (circuit s) (history s) (selectedGate s) m.

(** [applyGateName(gname, st)].  When the lookup yields a value that is
    truthy but has no [matrix], [matMul] reads [m[0]] of [undefined] and
    the engine throws. *)
Definition applyGateName (gname : string) (st : vec) : result vec :=
  match GATES_get gname with
  | LUndefined => Ok st
  | gate =>
      match matrix_of gate with
      | Some m => Ok (norm (matMul m st))
      | None => Throw TypeError
      end
  end.

(** The body of the [for ... of] loop of [stepCircuit], over the gates
    still to run. *)
Fixpoint stepCircuit_loop (gs : list string) (st : vec) (newHistory : list Entry.t)
  : result (vec * list Entry.t) :=
  match gs with
  | [] => Ok (st, newHistory)
  | g :: gs' =>
      st' <- applyGateName g st ;;
      stepCircuit_loop gs' st' (newHistory ++ [Entry.mk g st'])
  end.

Definition stepCircuit (s : session) : result session :=
  r <- stepCircuit_loop (circuit s) zero [] ;;
  let newHistory := snd r in
  let s1 := setHistory newHistory s in
  if negb (List.length newHistory =? 0)%nat then
    match nth_error newHistory (List.length newHistory - 1) with
    | Some e => Ok (setState (Entry.state e) s1)
    | None => Throw TypeError
    end
  else Ok (setState zero s1).

Definition addGateToCircuit (s : session) : session :=
  setCircuit (circuit s ++ [selectedGate s]) s.

Definition clearCircuit (s : session) : session :=
  setMeasurement None (setState zero (setHistory [] (setCircuit [] s))).

(** A read past the end of an array yields [undefined], which as a property
    key is the string "undefined". *)
Definition undefined_key : string := "undefined".

(** The guard of the loop of [runStep]: [i<=index && i<circuit.length]. *)
Definition runStep_guard (c : list string) (index : Z) (i : nat) : bool :=
  (Z.of_nat i <=? index)%Z && (i <? List.length c)%nat.

(** The loop of [runStep]: [for(let i=0; i<=index && i<circuit.length; i++)].
    It terminates because [circuit.length - i] decreases. *)
Equations? runStep_loop (c : list string) (index : Z) (i : nat) (st : vec)
  : result vec by wf (List.length c - i)%nat lt :=
  runStep_loop c index i st with bool_dec (runStep_guard c index i) true := {
    | left _ with applyGateName (nth i c undefined_key) st := {
        | Ok st' => runStep_loop c index (S i) st'
        | Throw e => Throw e };
    | right _ => Ok st }.
Proof.
  unfold runStep_guard in e.
  apply andb_prop in e. destruct e as [_ e]. apply Nat.ltb_lt in e. lia.
Qed.

Definition runStep (index : Z) (s : session) : result session :=
  st <- runStep_loop (circuit s) index 0 zero ;;
  Ok (setState st s).

(** [measure], with [r] the value drawn by [Math.random()]. *)
Definition measure (r : R) (s : session) : session :=
  let p0 := abs2 (fst (state s)) in
  let outcome := if nltb (Fin r) p0 then 0%nat else 1%nat in
  setState (if (outcome =? 0)%nat then zero else one)
           (setMeasurement (Some outcome) s).

(** The quick-apply buttons: [setState(applyGateName('H'))], where the
    second argument defaults to the current state. *)
Definition applyButton (gname : string) (s : session) : result session :=
  st <- applyGateName gname (state s) ;;
  Ok (setState st s).

(** The Reset button: [setMeasurement(null) || setState(zero)]. *)
Definition resetButton (s : session) : session :=
  setState zero (setMeasurement None s).

(* ------------------------------------------------------------------ *)
(** ** Notions used by the properties *)

(** Vectors and matrices of finite numbers. *)
Definition fv (a b c d : R) : vec := (C (Fin a) (Fin b), C (Fin c) (Fin d)).

Definition fm (ar ai br bi cr ci dr di : R) : mat :=
  full (C (Fin ar) (Fin ai)) (C (Fin br) (Fin bi))
       (C (Fin cr) (Fin ci)) (C (Fin dr) (Fin di)).

(** The sum of the squared magnitudes of the two amplitudes. *)
Definition sqsum (v : vec) : num := nadd (abs2 (fst v)) (abs2 (snd v)).

(** A state is normalized when that sum is 1. *)
Definition unit_norm (v : vec) : Prop := sqsum v = Fin 1.

(** A complex number with finite parts. *)
Definition fc (x y : R) : cplx := C (Fin x) (Fin y).

(** The state whose four components are [NaN]. *)
Definition nan_state : vec := (C NaN NaN, C NaN NaN).

(** What [matMul] uses for a matrix entry: the entry, or zero when it is
    missing. *)
Definition or_zero (e : option cplx) : cplx :=
  match e with
  | Some c => c
  | None => C (Fin 0) (Fin 0)
  end.

(** Pressing the quick-apply buttons for the names [gs], one after the
    other. *)
Fixpoint pressButtons (gs : list string) (s : session) : result session :=
  match gs with
  | [] => Ok s
  | g :: gs' => s' <- applyButton g s ;; pressButtons gs' s'
  end.

(** [Math.min(1, Math.max(-1, x))] on a finite [x]. *)
Definition clamp (x : R) : R := Rmin 1 (Rmax (-1) x).

(** The names of the table. *)
Definition in_table (gname : string) : Prop := In gname (map fst GATES).

(** Folding [applyGateName] over a list of gate names, from a state. *)
Fixpoint replay (gs : list string) (st : vec) : result vec :=
  match gs with
  | [] => Ok st
  | g :: gs' => st' <- applyGateName g st ;; replay gs' st'
  end.

(** The entries [stepCircuit] pushes while it runs [gs] from [st]. *)
Fixpoint trace (gs : list string) (st : vec) : result (list Entry.t) :=
  match gs with
  | [] => Ok []
  | g :: gs' =>
      st' <- applyGateName g st ;;
      es <- trace gs' st' ;;
      Ok (Entry.mk g st' :: es)
  end.

(* ------------------------------------------------------------------ *)
(** ** Finite numbers: the operations agree with the reals *)

Section Finite.

Lemma Rltb_true x y : x < y -> Rltb x y = true.
Proof. unfold Rltb. destruct (Rlt_dec x y); tauto. Qed.

Lemma Rltb_false x y : ~ x < y -> Rltb x y = false.
Proof. unfold Rltb. destruct (Rlt_dec x y); tauto. Qed.

Lemma Rleb_true x y : x <= y -> Rleb x y = true.
Proof. unfold Rleb. destruct (Rle_dec x y); tauto. Qed.

Lemma Reqb_true x y : x = y -> Reqb x y = true.
Proof. unfold Reqb. destruct (Req_dec_T x y); tauto. Qed.

Lemma Reqb_false x y : x <> y -> Reqb x y = false.
Proof. unfold Reqb. destruct (Req_dec_T x y); tauto. Qed.

Lemma nsqrt_Fin x : 0 <= x -> nsqrt (Fin x) = Fin (sqrt x).
Proof. intros H. simpl. rewrite Rltb_false by lra. reflexivity. Qed.

Lemma ndiv_Fin x y : y <> 0 -> ndiv (Fin x) (Fin y) = Fin (x / y).
Proof. intros H. simpl. rewrite Reqb_false by assumption. reflexivity. Qed.

Lemma ndiv_one_zero : ndiv (Fin 1) (Fin 0) = PInf.
Proof.
  unfold ndiv, inf_of_sign.
  rewrite (Reqb_true 0 0), (Reqb_false 1 0), (Rltb_true 0 1) by lra.
  reflexivity.
Qed.

Lemma nmul_zero_PInf : nmul (Fin 0) PInf = NaN.
Proof. unfold nmul, inf_of_sign. rewrite Reqb_true; reflexivity. Qed.

Lemma sqrt2_neq_0 : sqrt 2 <> 0.
Proof. apply Rgt_not_eq, sqrt_lt_R0. lra. Qed.

Lemma inv_sqrt2_sq : (1 / sqrt 2) * (1 / sqrt 2) = 1 / 2.
Proof.
  pose proof (sqrt_sqrt 2 ltac:(lra)) as H. pose proof sqrt2_neq_0 as N.
  unfold Rdiv. rewrite !Rmult_1_l, <- Rinv_mult, H. reflexivity.
Qed.

End Finite.

Section VectorFacts.

Lemma zero_fv : zero = fv 1 0 0 0.
Proof. reflexivity. Qed.

Lemma one_fv : one = fv 0 0 1 0.
Proof. reflexivity. Qed.

Lemma sqsum_fv a b c d : sqsum (fv a b c d) = Fin (a * a + b * b + (c * c + d * d)).
Proof. reflexivity. Qed.

Lemma unit_norm_fv a b c d :
  a * a + b * b + (c * c + d * d) = 1 -> unit_norm (fv a b c d).
Proof. intros H. unfold unit_norm. rewrite sqsum_fv, H. reflexivity. Qed.

(** A normalized state has four finite components. *)
Lemma unit_norm_inv v :
  unit_norm v ->
  exists a b c d, v = fv a b c d /\ a * a + b * b + (c * c + d * d) = 1.
Proof.
  destruct v as [[r1 i1] [r2 i2]]. unfold unit_norm, sqsum, abs2. simpl.
  destruct r1, i1, r2, i2; simpl; try discriminate.
  intros H. injection H as H. now exists x, x0, x1, x2.
Qed.

Lemma zero_unit : unit_norm zero.
Proof. rewrite zero_fv. apply unit_norm_fv. lra. Qed.

Lemma one_unit : unit_norm one.
Proof. rewrite one_fv. apply unit_norm_fv. lra. Qed.

Lemma matMul_fm ar ai br bi cr ci dr di a b c d :
  matMul (fm ar ai br bi cr ci dr di) (fv a b c d)
  = fv (ar * a + - (ai * b) + (br * c + - (bi * d)))
       (ar * b + ai * a + (br * d + bi * c))
       (cr * a + - (ci * b) + (dr * c + - (di * d)))
       (cr * b + ci * a + (dr * d + di * c)).
Proof. reflexivity. Qed.

(** Normalizing a finite vector that is not the zero vector. *)
Lemma norm_fv a b c d :
  let s := a * a + b * b + (c * c + d * d) in
  0 < s ->
  norm (fv a b c d)
  = fv (a * (1 / sqrt s)) (b * (1 / sqrt s)) (c * (1 / sqrt s)) (d * (1 / sqrt s)).
Proof.
  intros s Hs. unfold norm. fold (sqsum (fv a b c d)). rewrite sqsum_fv. fold s.
  rewrite nsqrt_Fin by lra.
  rewrite ndiv_Fin by (apply Rgt_not_eq, sqrt_lt_R0; exact Hs).
  reflexivity.
Qed.

Lemma norm_fv_unit a b c d :
  a * a + b * b + (c * c + d * d) = 1 -> norm (fv a b c d) = fv a b c d.
Proof.
  intros H. rewrite norm_fv by lra. rewrite H, sqrt_1.
  unfold fv. repeat f_equal; lra.
Qed.

(** Normalizing the zero vector divides by zero. *)
Lemma norm_zero_vector :
  norm (fv 0 0 0 0) = (C NaN NaN, C NaN NaN).
Proof.
  unfold norm. fold (sqsum (fv 0 0 0 0)). rewrite sqsum_fv.
  replace (0 * 0 + 0 * 0 + (0 * 0 + 0 * 0)) with 0 by lra.
  rewrite nsqrt_Fin, sqrt_0 by lra. rewrite ndiv_one_zero.
  unfold scale, fv. simpl re. simpl im. rewrite nmul_zero_PInf. reflexivity.
Qed.

Lemma norm_unit a b c d :
  0 < a * a + b * b + (c * c + d * d) -> unit_norm (norm (fv a b c d)).
Proof.
  intros Hs. rewrite norm_fv by exact Hs. apply unit_norm_fv.
  set (s := a * a + b * b + (c * c + d * d)) in *.
  pose proof (sqrt_sqrt s ltac:(lra)) as Hq.
  pose proof (sqrt_lt_R0 s Hs) as Hp.
  assert (E : 1 / sqrt s * (1 / sqrt s) = 1 / s).
  { rewrite <- Hq at 3. field. lra. }
  transitivity (s * (1 / sqrt s * (1 / sqrt s))); [unfold s; ring|].
  rewrite E. field. lra.
Qed.

End VectorFacts.

(* ------------------------------------------------------------------ *)
(** ** The gate table on finite states *)

Section GateFacts.

Lemma matrix_I : matrix gate_I = fm 1 0 0 0 0 0 1 0.
Proof. reflexivity. Qed.

Lemma matrix_X : matrix gate_X = fm 0 0 1 0 1 0 0 0.
Proof. reflexivity. Qed.

Lemma matrix_Z : matrix gate_Z = fm 1 0 0 0 0 0 (-1) 0.
Proof. reflexivity. Qed.

Lemma matrix_S : matrix gate_S = fm 1 0 0 0 0 0 0 1.
Proof. reflexivity. Qed.

Lemma matrix_H :
  matrix gate_H = fm (1 / sqrt 2) 0 0 0 (1 / sqrt 2) 0 0 0.
Proof.
  unfold gate_H, matrix.
  rewrite nsqrt_Fin by lra. rewrite ndiv_Fin by exact sqrt2_neq_0.
  reflexivity.
Qed.

Lemma matrix_T :
  matrix gate_T = fm 1 0 0 0 0 0 (cos (PI / 4)) (sin (PI / 4)).
Proof.
  unfold gate_T, matrix, Math_PI. rewrite ndiv_Fin by lra. reflexivity.
Qed.

Lemma in_table_cases gname :
  in_table gname <->
  gname = "I" \/ gname = "X" \/ gname = "Z" \/ gname = "H" \/ gname = "S" \/ gname = "T".
Proof.
  unfold in_table. simpl. intuition congruence.
Qed.

Lemma own_property_in o gname g :
  own_property gname o = Some g -> In gname (map fst o).
Proof.
  induction o as [|[k g'] o IH]; simpl; [discriminate|].
  destruct (String.eqb gname k) eqn:E.
  - apply String.eqb_eq in E. auto.
  - auto.
Qed.

Lemma own_property_not_in o gname :
  ~ In gname (map fst o) -> own_property gname o = None.
Proof.
  intros H. destruct (own_property gname o) eqn:E; [|reflexivity].
  apply own_property_in in E. contradiction.
Qed.

Lemma applyGateName_gate gname g st :
  GATES_get gname = LGate g ->
  applyGateName gname st = Ok (norm (matMul (matrix g) st)).
Proof. unfold applyGateName. intros ->. reflexivity. Qed.

Lemma applyGateName_I st : applyGateName "I" st = Ok (norm (matMul (matrix gate_I) st)).
Proof. reflexivity. Qed.
Lemma applyGateName_X st : applyGateName "X" st = Ok (norm (matMul (matrix gate_X) st)).
Proof. reflexivity. Qed.
Lemma applyGateName_Z st : applyGateName "Z" st = Ok (norm (matMul (matrix gate_Z) st)).
Proof. reflexivity. Qed.
Lemma applyGateName_H st : applyGateName "H" st = Ok (norm (matMul (matrix gate_H) st)).
Proof. reflexivity. Qed.
Lemma applyGateName_S st : applyGateName "S" st = Ok (norm (matMul (matrix gate_S) st)).
Proof. reflexivity. Qed.
Lemma applyGateName_T st : applyGateName "T" st = Ok (norm (matMul (matrix gate_T) st)).
Proof. reflexivity. Qed.

(** A name that is neither in the table nor on [Object.prototype] looks
    up [undefined], and the gate application hands the state back. *)
Lemma applyGateName_undefined gname st :
  ~ in_table gname -> ~ In gname Object_prototype ->
  applyGateName gname st = Ok st.
Proof.
  intros Ht Hp. unfold applyGateName, GATES_get.
  rewrite own_property_not_in by exact Ht.
  destruct (existsb (String.eqb gname) Object_prototype) eqn:E; [|reflexivity].
  apply existsb_exists in E. destruct E as [k [Hk E]].
  apply String.eqb_eq in E. subst k. contradiction.
Qed.

(** A name found on [Object.prototype] makes the gate application throw. *)
Lemma applyGateName_inherited gname st :
  In gname Object_prototype -> applyGateName gname st = Throw TypeError.
Proof.
  intros H. simpl in H.
  repeat (destruct H as [<- | H]; [reflexivity|]). contradiction.
Qed.

(** The squared magnitudes after each gate, before normalization. *)
Lemma cos_sin_PI4 : cos (PI / 4) * cos (PI / 4) + sin (PI / 4) * sin (PI / 4) = 1.
Proof. pose proof (sin2_cos2 (PI / 4)) as H. unfold Rsqr in H. lra. Qed.

End GateFacts.

(* ------------------------------------------------------------------ *)
(** ** Replaying a circuit *)

Section Replay.

Lemma runStep_loop_step c index i st :
  runStep_loop c index i st
  = if runStep_guard c index i
    then st' <- applyGateName (nth i c undefined_key) st ;;
         runStep_loop c index (S i) st'
    else Ok st.
Proof.
  rewrite runStep_loop_equation_1.
  destruct (bool_dec (runStep_guard c index i) true) as [E|E]; simpl.
  - destruct (applyGateName (nth i c undefined_key) st); simpl; rewrite E; reflexivity.
  - apply not_true_is_false in E. rewrite E. reflexivity.
Qed.

(** The loop of [runStep] started at [i] replays the gates from [i] up to
    [index], and never more than the circuit holds. *)
Lemma runStep_loop_replay c index :
  forall k i st,
    (List.length c - i = k)%nat ->
    runStep_loop c index i st
    = replay (firstn (Z.to_nat (index + 1) - i) (skipn i c)) st.
Proof.
  induction k as [|k IH]; intros i st Hk; rewrite runStep_loop_step;
    unfold runStep_guard.
  - replace (i <? List.length c)%nat with false
      by (symmetry; apply Nat.ltb_ge; lia).
    rewrite andb_false_r, skipn_all2, firstn_nil by lia. reflexivity.
  - replace (i <? List.length c)%nat with true
      by (symmetry; apply Nat.ltb_lt; lia).
    rewrite andb_true_r.
    destruct (Z.leb_spec (Z.of_nat i) index) as [Hi|Hi].
    + replace (Z.to_nat (index + 1) - i)%nat
        with (S (Z.to_nat (index + 1) - S i)) by lia.
      assert (Hs : skipn i c = nth i c undefined_key :: skipn (S i) c).
      { clear IH Hi. revert c Hk. induction i as [|i IHi]; intros [|g c] Hk;
          simpl in *; try lia.
        - reflexivity.
        - apply IHi. lia. }
      rewrite Hs. simpl.
      destruct (applyGateName (nth i c undefined_key) st) as [st'|e]; simpl;
        [|reflexivity].
      apply IH. lia.
    + replace (Z.to_nat (index + 1) - i)%nat with 0%nat by lia. reflexivity.
Qed.

Lemma runStep_replay index s :
  runStep index s
  = st <- replay (firstn (Z.to_nat (index + 1)) (circuit s)) zero ;;
    Ok (setState st s).
Proof.
  unfold runStep.
  rewrite (runStep_loop_replay (circuit s) index (List.length (circuit s)) 0)
    by lia.
  rewrite Nat.sub_0_r. reflexivity.
Qed.

Lemma stepCircuit_loop_trace gs :
  forall st h,
    stepCircuit_loop gs st h
    = es <- trace gs st ;; st' <- replay gs st ;; Ok (st', (h ++ es)%list).
Proof.
  induction gs as [|g gs IH]; intros st h; simpl.
  - rewrite app_nil_r. reflexivity.
  - destruct (applyGateName g st) as [st1|e]; simpl; [|reflexivity].
    rewrite IH.
    destruct (trace gs st1) as [es|e]; simpl; [|reflexivity].
    destruct (replay gs st1) as [st2|e]; simpl; [|reflexivity].
    rewrite <- app_assoc. reflexivity.
Qed.

(** A trace exists exactly when the replay does. *)
Lemma trace_throws gs :
  forall st e, trace gs st = Throw e <-> replay gs st = Throw e.
Proof.
  induction gs as [|g gs IH]; intros st e; simpl; [split; discriminate|].
  destruct (applyGateName g st) as [st1|e1]; simpl; [|split; congruence].
  rewrite <- IH.
  destruct (trace gs st1) as [es|e2]; simpl; split; congruence.
Qed.

Lemma trace_length gs :
  forall st es, trace gs st = Ok es -> List.length es = List.length gs.
Proof.
  induction gs as [|g gs IH]; intros st es; simpl.
  - intros [= <-]. reflexivity.
  - destruct (applyGateName g st) as [st1|e]; simpl; [|discriminate].
    destruct (trace gs st1) as [es1|e] eqn:E; simpl; [|discriminate].
    intros [= <-]. simpl. f_equal. eapply IH, E.
Qed.

(** Entry [i] of a trace pairs gate [i] with the replay of gates [0..i]. *)
Lemma trace_nth gs :
  forall st es i g,
    trace gs st = Ok es -> nth_error gs i = Some g ->
    exists sti,
      replay (firstn (S i) gs) st = Ok sti
      /\ nth_error es i = Some (Entry.mk g sti).
Proof.
  induction gs as [|g0 gs IH]; intros st es i g; simpl.
  - destruct i; discriminate.
  - destruct (applyGateName g0 st) as [st1|e]; simpl; [|discriminate].
    destruct (trace gs st1) as [es1|e] eqn:E; simpl; [|discriminate].
    intros [= <-] Hi. destruct i as [|i]; simpl in *.
    + injection Hi as <-. exists st1. split; reflexivity.
    + eapply IH; eassumption.
Qed.

Lemma last_default {A} (l : list A) (x d d' : A) :
  last (x :: l) d = last (x :: l) d'.
Proof.
  revert x. induction l as [|y l IH]; intros x; [reflexivity|].
  change (last (y :: l) d = last (y :: l) d'). apply IH.
Qed.

(** The last entry of a trace holds the replay of the whole list. *)
Lemma trace_last gs :
  forall st es,
    trace gs st = Ok es ->
    replay gs st = Ok (last (map Entry.state es) st).
Proof.
  induction gs as [|g gs IH]; intros st es; simpl.
  - intros [= <-]. reflexivity.
  - destruct (applyGateName g st) as [st1|e]; simpl; [|discriminate].
    destruct (trace gs st1) as [es1|e] eqn:E; simpl; [|discriminate].
    intros [= <-]. rewrite (IH _ _ E). f_equal.
    destruct es1 as [|e1 es1]; [reflexivity|].
    change (last (map Entry.state (e1 :: es1)) st1
            = last (map Entry.state (e1 :: es1)) st).
    apply last_default.
Qed.

Lemma nth_error_last {A} (l : list A) (d : A) :
  l <> [] -> nth_error l (List.length l - 1) = Some (last l d).
Proof.
  induction l as [|x l IH]; [congruence|]. intros _.
  destruct l as [|y l]; [reflexivity|].
  specialize (IH ltac:(discriminate)). simpl in *.
  rewrite Nat.sub_0_r in IH. exact IH.
Qed.

End Replay.

(* ------------------------------------------------------------------ *)
(** ** Gate application on normalized states *)

Section Application.

Lemma fv_ext a b c d a' b' c' d' :
  a = a' -> b = b' -> c = c' -> d = d' -> fv a b c d = fv a' b' c' d'.
Proof. congruence. Qed.

Lemma norm_unit_of_sum a b c d :
  a * a + b * b + (c * c + d * d) = 1 -> unit_norm (norm (fv a b c d)).
Proof. intros H. apply norm_unit. lra. Qed.

Variables a b c d : R.
Hypothesis Hunit : a * a + b * b + (c * c + d * d) = 1.

(** One proof for the gates whose product is again normalized: unfold the
    application, name the product, and normalize by 1. *)
Ltac gate_on_fv Happ Hmat x y z w :=
  rewrite Happ, Hmat, matMul_fm;
  rewrite (fv_ext _ _ _ _ x y z w) by lra;
  rewrite norm_fv_unit by lra;
  reflexivity.

Lemma applyGateName_I_fv : applyGateName "I" (fv a b c d) = Ok (fv a b c d).
Proof. gate_on_fv applyGateName_I matrix_I a b c d. Qed.

Lemma applyGateName_X_fv : applyGateName "X" (fv a b c d) = Ok (fv c d a b).
Proof. gate_on_fv applyGateName_X matrix_X c d a b. Qed.

Lemma applyGateName_Z_fv : applyGateName "Z" (fv a b c d) = Ok (fv a b (- c) (- d)).
Proof. gate_on_fv applyGateName_Z matrix_Z a b (- c) (- d). Qed.

Lemma applyGateName_S_fv : applyGateName "S" (fv a b c d) = Ok (fv a b (- d) c).
Proof. gate_on_fv applyGateName_S matrix_S a b (- d) c. Qed.

Lemma applyGateName_T_fv :
  exists st, applyGateName "T" (fv a b c d) = Ok st /\ unit_norm st.
Proof.
  rewrite applyGateName_T, matrix_T, matMul_fm.
  eexists. split; [reflexivity|].
  apply norm_unit_of_sum.
  pose proof cos_sin_PI4 as E.
  set (k := cos (PI / 4)) in *. set (s := sin (PI / 4)) in *.
  transitivity (a * a + b * b + (k * k + s * s) * (c * c + d * d)); [ring|].
  rewrite E. lra.
Qed.

(** The table's [H] sends the amplitudes [(u, v)] to [(u/sqrt 2, u/sqrt 2)]:
    its second column is zero, so the second amplitude is dropped. *)
Lemma matMul_H_fv :
  matMul (matrix gate_H) (fv a b c d)
  = fv (1 / sqrt 2 * a) (1 / sqrt 2 * b) (1 / sqrt 2 * a) (1 / sqrt 2 * b).
Proof. rewrite matrix_H, matMul_fm. apply fv_ext; lra. Qed.

Lemma applyGateName_H_fv :
  0 < a * a + b * b ->
  exists st, applyGateName "H" (fv a b c d) = Ok st /\ unit_norm st.
Proof.
  intros Hpos. rewrite applyGateName_H, matMul_H_fv.
  eexists. split; [reflexivity|].
  apply norm_unit. pose proof inv_sqrt2_sq as E.
  set (k := 1 / sqrt 2) in *.
  replace (k * a * (k * a) + k * b * (k * b) + (k * a * (k * a) + k * b * (k * b)))
    with (2 * (k * k) * (a * a + b * b)) by ring.
  rewrite E. lra.
Qed.

End Application.

(** Every gate of the table keeps a normalized state normalized, except
    [H] on a state whose first amplitude is zero. *)
Lemma applyGateName_keeps_unit_norm gname st :
  in_table gname -> unit_norm st ->
  gname <> "H" \/ fst st <> C (Fin 0) (Fin 0) ->
  exists st', applyGateName gname st = Ok st' /\ unit_norm st'.
Proof.
  intros Hg Hu Hside.
  destruct (unit_norm_inv st Hu) as (a & b & c & d & -> & E).
  apply in_table_cases in Hg.
  destruct Hg as [-> | [-> | [-> | [-> | [-> | ->]]]]].
  - rewrite applyGateName_I_fv by exact E. eauto using unit_norm_fv.
  - rewrite applyGateName_X_fv by exact E. eexists; split; [reflexivity|].
    apply unit_norm_fv. lra.
  - rewrite applyGateName_Z_fv by exact E. eexists; split; [reflexivity|].
    apply unit_norm_fv. lra.
  - apply applyGateName_H_fv.
    destruct Hside as [Hne | Hne]; [congruence|]. simpl in Hne.
    destruct (Req_dec_T a 0) as [-> | Ha]; [|nra].
    destruct (Req_dec_T b 0) as [-> | Hb]; [|nra].
    exfalso. apply Hne. reflexivity.
  - rewrite applyGateName_S_fv by exact E. eexists; split; [reflexivity|].
    apply unit_norm_fv. lra.
  - apply applyGateName_T_fv. exact E.
Qed.

(* ------------------------------------------------------------------ *)
(** ** Running the circuit *)

Section RunCircuit.

Lemma state_last (es : list Entry.t) (d : Entry.t) :
  Entry.state (last es d) = last (map Entry.state es) (Entry.state d).
Proof.
  induction es as [|e es IH]; [reflexivity|].
  destruct es as [|e' es]; [reflexivity|]. exact IH.
Qed.

(** [stepCircuit] stores the trace of the circuit as the new history and
    the state of its last entry as the new state. *)
Lemma stepCircuit_trace s :
  stepCircuit s
  = es <- trace (circuit s) zero ;;
    Ok (setState (last (map Entry.state es) zero) (setHistory es s)).
Proof.
  unfold stepCircuit. rewrite stepCircuit_loop_trace.
  destruct (trace (circuit s) zero) as [es|e] eqn:E; simpl; [|reflexivity].
  rewrite (trace_last _ _ _ E). simpl.
  destruct es as [|e0 es]; [reflexivity|].
  change (negb (List.length (e0 :: es) =? 0)%nat) with true. cbv iota.
  rewrite (nth_error_last (e0 :: es) e0) by discriminate.
  f_equal. f_equal. rewrite state_last. apply last_default.
Qed.

Lemma stepCircuit_state s :
  rmap state (stepCircuit s) = replay (circuit s) zero.
Proof.
  rewrite stepCircuit_trace.
  destruct (trace (circuit s) zero) as [es|e] eqn:E; simpl.
  - symmetry. apply (trace_last _ _ _ E).
  - symmetry. apply trace_throws. exact E.
Qed.

End RunCircuit.

(** C5.  Running the circuit rebuilds the history from the circuit alone:
    one entry per gate, entry [i] pairing gate [i] with the state reached
    by applying gates [0..i] in order to basis state 0.  The new state is
    the state of the last entry, which is the replay of the whole circuit,
    and basis state 0 when the circuit is empty.  The circuit, the selected
    gate and the measurement are left as they were.  The run throws exactly
    when a gate application of the replay throws. *)
Theorem stepCircuit_replays (s : session) :
  match stepCircuit s with
  | Ok s' =>
      List.length (history s') = List.length (circuit s)
      /\ (forall i g,
            nth_error (circuit s) i = Some g ->
            exists st,
              replay (firstn (S i) (circuit s)) zero = Ok st
              /\ nth_error (history s') i = Some (Entry.mk g st))
      /\ state s' = last (map Entry.state (history s')) zero
      /\ replay (circuit s) zero = Ok (state s')
      /\ (circuit s = [] -> history s' = [] /\ state s' = zero)
      /\ circuit s' = circuit s
      /\ selectedGate s' = selectedGate s
      /\ measurement s' = measurement s
  | Throw e => replay (circuit s) zero = Throw e
  end.
Proof.
  rewrite stepCircuit_trace.
  destruct (trace (circuit s) zero) as [es|e] eqn:E; simpl.
  - repeat split.
    + eapply trace_length, E.
    + intros i g Hi. eapply trace_nth; eassumption.
    + apply (trace_last _ _ _ E).
    + rewrite H in E. simpl in E. congruence.
    + rewrite H in E. simpl in E. injection E as <-. reflexivity.
  - apply trace_throws. exact E.
Qed.

(* ------------------------------------------------------------------ *)
(** ** Properties of the gate application *)

(** C1.  The table's [H] applied to the normalized state [one]: the product
    is the zero vector, normalization divides by zero, and the state the
    gate application returns has [NaN] in every component, so its
    squared magnitudes do not sum to 1.  Every other case keeps the sum
    at 1, see [applyGateName_keeps_unit_norm]. *)
Theorem applyGateName_H_one_not_unit :
  unit_norm one /\ in_table "H"
  /\ applyGateName "H" one = Ok (C NaN NaN, C NaN NaN)
  /\ sqsum (C NaN NaN, C NaN NaN) = NaN
  /\ ~ unit_norm (C NaN NaN, C NaN NaN).
Proof.
  split; [exact one_unit|]. split; [apply in_table_cases; tauto|].
  split; [|split; [reflexivity|discriminate]].
  rewrite applyGateName_H, one_fv, matMul_H_fv.
  rewrite (fv_ext _ _ _ _ 0 0 0 0) by lra.
  rewrite norm_zero_vector. reflexivity.
Qed.

(** C2.  For the table's [H] and the normalized state [one], [matMul]
    produces the zero vector: its norm is 0, the quotient [1 / s] inside
    [norm] is [Infinity], and both components of the result are [NaN]. *)
Theorem matMul_H_one_zero_norm :
  unit_norm one /\ in_table "H"
  /\ matMul (matrix gate_H) one = fv 0 0 0 0
  /\ nsqrt (sqsum (matMul (matrix gate_H) one)) = Fin 0
  /\ ndiv (Fin 1) (nsqrt (sqsum (matMul (matrix gate_H) one))) = PInf
  /\ norm (matMul (matrix gate_H) one) = (C NaN NaN, C NaN NaN).
Proof.
  assert (E : matMul (matrix gate_H) one = fv 0 0 0 0).
  { rewrite one_fv, matMul_H_fv. apply fv_ext; lra. }
  assert (S0 : nsqrt (sqsum (fv 0 0 0 0)) = Fin 0).
  { rewrite sqsum_fv.
    replace (0 * 0 + 0 * 0 + (0 * 0 + 0 * 0)) with 0 by lra.
    rewrite nsqrt_Fin, sqrt_0 by lra. reflexivity. }
  split; [exact one_unit|]. split; [apply in_table_cases; tauto|].
  rewrite E, S0. repeat split.
  - exact ndiv_one_zero.
  - exact norm_zero_vector.
Qed.

(** C3.  With the [H] matrix of the table, the circuit [H] run from basis
    state 0 ends in the amplitudes (1/sqrt 2, 1/sqrt 2), and the circuit
    [H, H] ends in the same amplitudes, which is not basis state 0. *)
Theorem stepCircuit_H_then_H :
  (forall s, circuit s = ["H"] ->
     rmap state (stepCircuit s) = Ok (fv (1 / sqrt 2) 0 (1 / sqrt 2) 0))
  /\ (forall s, circuit s = ["H"; "H"] ->
        rmap state (stepCircuit s) = Ok (fv (1 / sqrt 2) 0 (1 / sqrt 2) 0))
  /\ fv (1 / sqrt 2) 0 (1 / sqrt 2) 0 <> zero.
Proof.
  pose proof inv_sqrt2_sq as Hk. pose proof sqrt2_neq_0 as Hn.
  assert (Hpos : 0 < 1 / sqrt 2).
  { apply Rdiv_lt_0_compat; [lra|]. apply sqrt_lt_R0. lra. }
  assert (H1 : applyGateName "H" zero = Ok (fv (1 / sqrt 2) 0 (1 / sqrt 2) 0)).
  { rewrite applyGateName_H, zero_fv, matMul_H_fv.
    rewrite (fv_ext _ _ _ _ (1 / sqrt 2) 0 (1 / sqrt 2) 0) by lra.
    rewrite norm_fv_unit by lra. reflexivity. }
  assert (H2 : applyGateName "H" (fv (1 / sqrt 2) 0 (1 / sqrt 2) 0)
               = Ok (fv (1 / sqrt 2) 0 (1 / sqrt 2) 0)).
  { rewrite applyGateName_H, matMul_H_fv.
    rewrite (fv_ext _ _ _ _ (1 / 2) 0 (1 / 2) 0) by lra.
    rewrite norm_fv by lra.
    replace (1 / 2 * (1 / 2) + 0 * 0 + (1 / 2 * (1 / 2) + 0 * 0)) with (1 / 2) by lra.
    rewrite (sqrt_lem_1 (1 / 2) (1 / sqrt 2)) by lra.
    set (k := 1 / sqrt 2) in *.
    assert (Hq : 1 / 2 * (1 / k) = k).
    { apply (Rmult_eq_reg_r k); [|lra].
      replace (1 / 2 * (1 / k) * k) with (1 / 2) by (field; lra). lra. }
    f_equal. apply fv_ext; lra. }
  repeat split.
  - intros s Hc. rewrite stepCircuit_state, Hc. cbn [replay]. rewrite H1.
    reflexivity.
  - intros s Hc. rewrite stepCircuit_state, Hc. cbn [replay]. rewrite H1.
    cbn [bind]. rewrite H2. reflexivity.
  - unfold fv, zero. intros E. injection E as E1 E2. lra.
Qed.

(** The claim C3 on the initial session holding the circuits [H] and [H, H]. *)
Lemma stepCircuit_H_then_H_witness :
  rmap state (stepCircuit (setCircuit ["H"] init))
  = Ok (fv (1 / sqrt 2) 0 (1 / sqrt 2) 0)
  /\ rmap state (stepCircuit (setCircuit ["H"; "H"] init))
     = Ok (fv (1 / sqrt 2) 0 (1 / sqrt 2) 0).
Proof.
  split.
  - apply (proj1 stepCircuit_H_then_H (setCircuit ["H"] init)). reflexivity.
  - apply (proj1 (proj2 stepCircuit_H_then_H) (setCircuit ["H"; "H"] init)).
    reflexivity.
Defined.

(** C4.  On a normalized state each of [I], [X] and [Z] applied twice
    gives the state back, and the circuit [X, X] run from basis state 0
    ends in basis state 0. *)
Theorem self_inverse_gates :
  (forall st gname,
     unit_norm st ->
     gname = "I" \/ gname = "X" \/ gname = "Z" ->
     (st' <- applyGateName gname st ;; applyGateName gname st') = Ok st)
  /\ (forall s, circuit s = ["X"; "X"] -> rmap state (stepCircuit s) = Ok zero).
Proof.
  assert (Twice : forall st gname,
     unit_norm st ->
     gname = "I" \/ gname = "X" \/ gname = "Z" ->
     (st' <- applyGateName gname st ;; applyGateName gname st') = Ok st).
  { intros st gname Hu Hg.
    destruct (unit_norm_inv st Hu) as (a & b & c & d & -> & E).
    destruct Hg as [-> | [-> | ->]].
    - rewrite applyGateName_I_fv by exact E. simpl.
      apply applyGateName_I_fv. exact E.
    - rewrite applyGateName_X_fv by exact E. simpl.
      apply applyGateName_X_fv. lra.
    - rewrite applyGateName_Z_fv by exact E. simpl.
      rewrite applyGateName_Z_fv by lra. f_equal. apply fv_ext; lra. }
  split; [exact Twice|].
  intros s Hc. rewrite stepCircuit_state, Hc.
  specialize (Twice zero "X" zero_unit ltac:(tauto)). cbn [replay].
  destruct (applyGateName "X" zero) as [st1|e]; cbn [bind] in *; [|discriminate].
  rewrite Twice. reflexivity.
Qed.

(** The claim C4 at basis state 0 and the gate [X]. *)
Lemma self_inverse_gates_witness :
  unit_norm zero
  /\ (st' <- applyGateName "X" zero ;; applyGateName "X" st') = Ok zero
  /\ rmap state (stepCircuit (setCircuit ["X"; "X"] init)) = Ok zero.
Proof.
  split; [exact zero_unit|]. split.
  - apply (proj1 self_inverse_gates zero "X"); [exact zero_unit|].
    right. left. reflexivity.
  - apply (proj2 self_inverse_gates (setCircuit ["X"; "X"] init)). reflexivity.
Defined.

(** C7.  The name "constructor" is not in the table, yet the lookup finds
    the function inherited from [Object.prototype]; it has no matrix and
    the gate application throws instead of returning its input.  A name
    that is neither in the table nor inherited is a no-op, see
    [applyGateName_undefined]. *)
Theorem applyGateName_constructor_throws :
  ~ in_table "constructor"
  /\ GATES_get "constructor" = LInherited
  /\ forall st, applyGateName "constructor" st = Throw TypeError.
Proof.
  split; [|split; [reflexivity|intros st; reflexivity]].
  rewrite in_table_cases. intros H.
  repeat (destruct H as [H | H]; [discriminate|]). discriminate.
Qed.

(* ------------------------------------------------------------------ *)
(** ** Measurement *)

(** C6.  With [r] the sample drawn in [0, 1) and [p0] the squared
    magnitude of the first amplitude, [measure] records outcome 0 and
    collapses to basis state 0 when [r < p0], records outcome 1 and
    collapses to basis state 1 otherwise, and touches nothing else; on
    amplitudes [(a + b i, c + d i)] the test is [r < a*a + b*b].  On basis
    state 0 the outcome is 0 whatever the sample. *)
Theorem measure_collapses (r : R) (s : session) :
  0 <= r < 1 ->
  let p0 := abs2 (fst (state s)) in
  (nltb (Fin r) p0 = true ->
     measure r s = mkSession zero (circuit s) (history s) (selectedGate s) (Some 0%nat))
  /\ (nltb (Fin r) p0 = false ->
        measure r s = mkSession one (circuit s) (history s) (selectedGate s) (Some 1%nat))
  /\ (forall a b c d, state s = fv a b c d ->
        p0 = Fin (a * a + b * b)
        /\ (r < a * a + b * b -> nltb (Fin r) p0 = true)
        /\ (a * a + b * b <= r -> nltb (Fin r) p0 = false))
  /\ (state s = zero ->
        measurement (measure r s) = Some 0%nat /\ state (measure r s) = zero).
Proof.
  intros Hr p0. unfold measure. fold p0.
  split; [intros ->; reflexivity|].
  split; [intros ->; reflexivity|].
  split.
  - intros a b c d E. subst p0. rewrite E. simpl.
    split; [reflexivity|]. split; intros H.
    + apply Rltb_true. exact H.
    + apply Rltb_false. lra.
  - intros E. subst p0. rewrite E. simpl.
    rewrite Rltb_true by lra. split; reflexivity.
Qed.

(** The claim C6 at the sample 1/2 on the initial session. *)
Lemma measure_collapses_witness :
  0 <= 1 / 2 < 1
  /\ measurement (measure (1 / 2) init) = Some 0%nat
  /\ state (measure (1 / 2) init) = zero.
Proof.
  assert (Hr : 0 <= 1 / 2 < 1) by lra.
  split; [exact Hr|].
  apply (proj2 (proj2 (proj2 (measure_collapses (1 / 2) init Hr)))).
  reflexivity.
Defined.

(* ------------------------------------------------------------------ *)
(** ** Bloch angles *)

(** C8.  On a normalized state with amplitudes [(a + b i, c + d i)] the
    projection returns theta = 2 acos(clamp(|a + b i|, -1, 1)) and
    phi = atan2(d, c) - atan2(b, a), both finite, where atan2 reads the
    sign bit of an argument that is a zero; basis state 0 has theta = 0
    and basis state 1 has theta = PI, whatever the sign bits. *)
Theorem stateToBlochAngles_formula :
  (forall sa sb a b c d,
     unit_norm (fv a b c d) ->
     stateToBlochAngles sa sb (fv a b c d)
     = mkAngles (Fin (2 * acos (Rmin 1 (Rmax (-1) (sqrt (a * a + b * b))))))
                (Fin (atan2_signed (im_neg sb) (re_neg sb) d c
                      - atan2_signed (im_neg sa) (re_neg sa) b a)))
  /\ (forall sa sb, theta (stateToBlochAngles sa sb zero) = Fin 0)
  /\ (forall sa sb, theta (stateToBlochAngles sa sb one) = Fin PI).
Proof.
  assert (F : forall sa sb a b c d,
     stateToBlochAngles sa sb (fv a b c d)
     = mkAngles (Fin (2 * acos (Rmin 1 (Rmax (-1) (sqrt (a * a + b * b))))))
                (Fin (atan2_signed (im_neg sb) (re_neg sb) d c
                      - atan2_signed (im_neg sa) (re_neg sa) b a))).
  { intros sa sb a b c d. unfold stateToBlochAngles, fv.
    change (abs2 (C (Fin a) (Fin b))) with (Fin (a * a + b * b)).
    rewrite nsqrt_Fin by nra.
    cbn [nmax nmin nacos].
    assert (-1 <= Rmin 1 (Rmax (-1) (sqrt (a * a + b * b))) <= 1) as [Hlo Hhi].
    { split.
      - apply Rmin_glb; [lra|apply Rmax_l].
      - apply Rmin_l. }
    rewrite !Rleb_true by assumption. reflexivity. }
  split; [intros sa sb a b c d _; apply F|].
  split; intros sa sb.
  - rewrite zero_fv, F. cbn [theta]. f_equal.
    replace (1 * 1 + 0 * 0) with 1 by lra.
    rewrite sqrt_1, Rmax_right, Rmin_left, acos_1 by lra. lra.
  - rewrite one_fv, F. cbn [theta]. f_equal.
    replace (0 * 0 + 0 * 0) with 0 by lra.
    rewrite sqrt_0, Rmax_right, Rmin_right, acos_0 by lra. lra.
Qed.

(** The claim C8 at the state the circuit [X, Z, X, Z] reaches from basis
    state 0: amplitudes (-1, -0), the real part of the second being the
    negative zero.  Both arguments are PI and phi is 0. *)
Lemma stateToBlochAngles_formula_witness :
  unit_norm (fv (-1) 0 0 0)
  /\ stateToBlochAngles (mkSigns false false) (mkSigns true false) (fv (-1) 0 0 0)
     = mkAngles (Fin (2 * acos (Rmin 1 (Rmax (-1) (sqrt (-1 * -1 + 0 * 0))))))
                (Fin (atan2_signed false true 0 0 - atan2_signed false false 0 (-1)))
  /\ atan2_signed false true 0 0 = PI
  /\ atan2_signed false false 0 (-1) = PI.
Proof.
  assert (U : unit_norm (fv (-1) 0 0 0)) by (apply unit_norm_fv; lra).
  split; [exact U|]. split.
  - apply (proj1 stateToBlochAngles_formula
                 (mkSigns false false) (mkSigns true false) (-1) 0 0 0 U).
  - unfold atan2_signed, negative. split.
    + rewrite !(Rltb_false 0 0) by lra. reflexivity.
    + rewrite (Rltb_false 0 (-1)), (Rltb_true (-1) 0), (Reqb_true 0 0) by lra.
      replace (0 / -1) with 0 by (field; lra). rewrite atan_0. lra.
Defined.

(* ------------------------------------------------------------------ *)
(** ** Running up to a step *)

(** C9.  For an index inside the circuit, [runStep] sets the state to the
    replay from basis state 0 of the gates 0 to [index] included (the
    first [index + 1] gates), and leaves the history, the circuit, the
    selected gate and the measurement as they were.  It throws exactly
    when a gate application of that replay throws. *)
Theorem runStep_replays_prefix (s : session) (index : Z) :
  (0 <= index < Z.of_nat (List.length (circuit s)))%Z ->
  List.length (firstn (S (Z.to_nat index)) (circuit s)) = S (Z.to_nat index)
  /\ match runStep index s with
     | Ok s' =>
         replay (firstn (S (Z.to_nat index)) (circuit s)) zero = Ok (state s')
         /\ history s' = history s
         /\ circuit s' = circuit s
         /\ selectedGate s' = selectedGate s
         /\ measurement s' = measurement s
     | Throw e =>
         replay (firstn (S (Z.to_nat index)) (circuit s)) zero = Throw e
     end.
Proof.
  intros Hi. split; [rewrite length_firstn; lia|].
  rewrite runStep_replay.
  replace (Z.to_nat (index + 1)) with (S (Z.to_nat index)) by lia.
  destruct (replay (firstn (S (Z.to_nat index)) (circuit s)) zero) as [st|e];
    simpl; auto.
Qed.

(** The claim C9 at index 1 of the circuit [X, Z, X]. *)
Lemma runStep_replays_prefix_witness :
  (0 <= 1 < Z.of_nat (List.length (circuit (setCircuit ["X"; "Z"; "X"] init))))%Z
  /\ List.length (firstn 2 ["X"; "Z"; "X"]) = 2%nat
  /\ match runStep 1 (setCircuit ["X"; "Z"; "X"] init) with
     | Ok s' =>
         replay ["X"; "Z"] zero = Ok (state s')
         /\ history s' = []
         /\ circuit s' = ["X"; "Z"; "X"]
         /\ selectedGate s' = "H"
         /\ measurement s' = None
     | Throw e => replay ["X"; "Z"] zero = Throw e
     end.
Proof.
  assert (Hi : (0 <= 1 < Z.of_nat (List.length (circuit (setCircuit ["X"; "Z"; "X"] init))))%Z)
    by (simpl; lia).
  split; [exact Hi|].
  exact (runStep_replays_prefix (setCircuit ["X"; "Z"; "X"] init) 1 Hi).
Defined.

(** C10.  For a non-negative index at or past the last position of the
    circuit, the loop body of [runStep] runs only at positions inside the
    circuit, the whole circuit is replayed from basis state 0, and the
    state reached is the one [stepCircuit] reaches. *)
Theorem runStep_past_end (s : session) (index : Z) :
  (0 <= index)%Z ->
  (Z.of_nat (List.length (circuit s)) - 1 <= index)%Z ->
  (forall i, runStep_guard (circuit s) index i = true ->
             nth_error (circuit s) i <> None)
  /\ rmap state (runStep index s) = replay (circuit s) zero
  /\ rmap state (runStep index s) = rmap state (stepCircuit s).
Proof.
  intros H0 Hi.
  assert (E : rmap state (runStep index s) = replay (circuit s) zero).
  { rewrite runStep_replay, firstn_all2 by lia.
    destruct (replay (circuit s) zero); reflexivity. }
  split; [|split; [exact E|rewrite stepCircuit_state; exact E]].
  intros i Hg. unfold runStep_guard in Hg.
  apply andb_prop in Hg. destruct Hg as [_ Hg]. apply Nat.ltb_lt in Hg.
  apply nth_error_Some. exact Hg.
Qed.

(** The claim C10 at index 5 of the circuit [X, Z]. *)
Lemma runStep_past_end_witness :
  (0 <= 5)%Z
  /\ (Z.of_nat (List.length (circuit (setCircuit ["X"; "Z"] init))) - 1 <= 5)%Z
  /\ rmap state (runStep 5 (setCircuit ["X"; "Z"] init))
     = rmap state (stepCircuit (setCircuit ["X"; "Z"] init)).
Proof.
  assert (H0 : (0 <= 5)%Z) by lia.
  assert (H1 : (Z.of_nat (List.length (circuit (setCircuit ["X"; "Z"] init))) - 1 <= 5)%Z)
    by (simpl; lia).
  split; [exact H0|]. split; [exact H1|].
  exact (proj2 (proj2 (runStep_past_end (setCircuit ["X"; "Z"] init) 5 H0 H1))).
Defined.

(* ------------------------------------------------------------------ *)
(** ** Complex arithmetic *)

Section NumFacts.

Lemma nadd_comm a b : nadd a b = nadd b a.
Proof. destruct a, b; simpl; try reflexivity. f_equal. lra. Qed.

Lemma nmul_comm a b : nmul a b = nmul b a.
Proof. destruct a, b; simpl; try reflexivity. f_equal. lra. Qed.

Lemma nneg_involutive a : nneg (nneg a) = a.
Proof. destruct a; simpl; try reflexivity. f_equal. lra. Qed.

Lemma nmul_nneg_nneg a : nmul (nneg a) (nneg a) = nmul a a.
Proof. destruct a; simpl; try reflexivity. f_equal. lra. Qed.

Lemma inf_of_sign_opp x p q : inf_of_sign (- x) p q = inf_of_sign x q p.
Proof.
  unfold inf_of_sign.
  destruct (Req_dec_T x 0) as [-> | Hx].
  - rewrite Ropp_0, Reqb_true by reflexivity. reflexivity.
  - rewrite !Reqb_false by lra.
    destruct (Rlt_dec 0 x) as [Hp | Hp].
    + rewrite (Rltb_true 0 x), (Rltb_false 0 (- x)) by lra. reflexivity.
    + rewrite (Rltb_false 0 x), (Rltb_true 0 (- x)) by lra. reflexivity.
Qed.

Lemma nneg_inf_of_sign x p q :
  nneg (inf_of_sign x p q) = inf_of_sign x (nneg p) (nneg q).
Proof.
  unfold inf_of_sign. destruct (Reqb x 0); [reflexivity|].
  destruct (Rltb 0 x); reflexivity.
Qed.

Lemma nmul_nneg_l a b : nmul (nneg a) b = nneg (nmul a b).
Proof.
  destruct a, b; simpl; try reflexivity;
    try (rewrite inf_of_sign_opp, nneg_inf_of_sign; reflexivity);
    try (rewrite nneg_inf_of_sign; reflexivity).
  f_equal. lra.
Qed.

Lemma nmul_nneg_r a b : nmul a (nneg b) = nneg (nmul a b).
Proof. rewrite nmul_comm, nmul_nneg_l, nmul_comm. reflexivity. Qed.

Lemma nneg_nadd a b : nneg (nadd a b) = nadd (nneg a) (nneg b).
Proof. destruct a, b; simpl; try reflexivity. f_equal. lra. Qed.

Lemma mul_comm_all a b : mul a b = mul b a.
Proof.
  unfold mul. f_equal.
  - unfold nsub. f_equal; [apply nmul_comm|f_equal; apply nmul_comm].
  - rewrite nadd_comm. f_equal; apply nmul_comm.
Qed.

Lemma conj_add a b : conj (add a b) = add (conj a) (conj b).
Proof. unfold conj, add, C. simpl. rewrite nneg_nadd. reflexivity. Qed.

Lemma conj_mul a b : conj (mul a b) = mul (conj a) (conj b).
Proof.
  unfold conj, mul, C. simpl. f_equal.
  - unfold nsub. rewrite nmul_nneg_l, nmul_nneg_r, nneg_involutive. reflexivity.
  - rewrite nneg_nadd, nmul_nneg_l, nmul_nneg_r. reflexivity.
Qed.

Lemma conj_conj a : conj (conj a) = a.
Proof. destruct a as [r i]. unfold conj, C. simpl. rewrite nneg_involutive. reflexivity. Qed.

End NumFacts.

(** X1.  Complex addition and multiplication are commutative on every
    value, the non-finite ones included. *)
Theorem add_mul_commutative (a b : cplx) :
  add a b = add b a /\ mul a b = mul b a.
Proof.
  unfold add, mul. split.
  - f_equal; apply nadd_comm.
  - f_equal.
    + unfold nsub. f_equal; [apply nmul_comm|f_equal; apply nmul_comm].
    + rewrite nadd_comm. f_equal; apply nmul_comm.
Qed.

(** X2.  Multiplying a finite number by one of the entries the gate
    matrices are built from changes no digit: [C(1)] returns the number,
    [C(0)] returns zero, [C(-1)] negates both parts and [C(0, 1)] turns
    [(x, y)] into [(-y, x)]; adding zero returns the number. *)
Theorem mul_by_gate_entries (x y : R) :
  mul (C1 (Fin 1)) (fc x y) = fc x y
  /\ mul (C1 (Fin 0)) (fc x y) = fc 0 0
  /\ mul (C1 (Fin (-1))) (fc x y) = fc (- x) (- y)
  /\ mul (C (Fin 0) (Fin 1)) (fc x y) = fc (- y) x
  /\ add (fc 0 0) (fc x y) = fc x y.
Proof.
  unfold fc, C1, mul, add, C; simpl.
  repeat split; f_equal; f_equal; ring.
Qed.

(** X3.  On every value, the non-finite ones included, conjugation is an
    involution, keeps the squared magnitude, and commutes with addition
    and with multiplication. *)
Theorem conj_is_compatible (a b : cplx) :
  conj (conj a) = a
  /\ abs2 (conj a) = abs2 a
  /\ conj (add a b) = add (conj a) (conj b)
  /\ conj (mul a b) = mul (conj a) (conj b).
Proof.
  split; [apply conj_conj|]. split; [|split; [apply conj_add|apply conj_mul]].
  destruct a as [r i]. unfold conj, abs2, C. simpl.
  rewrite nmul_nneg_nneg. reflexivity.
Qed.

(** X5.  On every value, the non-finite ones included, exchanging the two
    arguments of the inner product conjugates it. *)
Theorem dot_conj_symmetric (v w : vec) :
  dot v w = conj (dot w v).
Proof.
  unfold dot. rewrite !conj_add, !conj_mul, !conj_conj.
  rewrite (mul_comm_all (fst w)), (mul_comm_all (snd w)).
  f_equal. f_equal. unfold conj, C. simpl. f_equal. f_equal. lra.
Qed.

(* ------------------------------------------------------------------ *)
(** ** Matrix product, normalization and the gate table *)

Section MatrixFacts.

Lemma entry_times_or_zero e x y :
  entry_times e (fc x y) = mul (or_zero e) (fc x y).
Proof.
  destruct e as [c|]; [reflexivity|].
  unfold entry_times, or_zero, mul, fc, C; simpl. f_equal; f_equal; ring.
Qed.

(** The product of the matrix of [I], [X], [Z] or [S] with a finite vector
    holds the parts of the vector, exchanged or negated. *)
Lemma matMul_permutes g a b c d :
  In g [gate_I; gate_X; gate_Z; gate_S] ->
  matMul (matrix g) (fv a b c d) = fv a b c d
  \/ matMul (matrix g) (fv a b c d) = fv c d a b
  \/ matMul (matrix g) (fv a b c d) = fv a b (- c) (- d)
  \/ matMul (matrix g) (fv a b c d) = fv a b (- d) c.
Proof.
  simpl. intros [<- | [<- | [<- | [<- | []]]]].
  - left. rewrite matrix_I, matMul_fm. apply fv_ext; ring.
  - right; left. rewrite matrix_X, matMul_fm. apply fv_ext; ring.
  - right; right; left. rewrite matrix_Z, matMul_fm. apply fv_ext; ring.
  - right; right; right. rewrite matrix_S, matMul_fm. apply fv_ext; ring.
Qed.

Lemma unit_norm_sum a b c d :
  unit_norm (fv a b c d) -> a * a + b * b + (c * c + d * d) = 1.
Proof. unfold unit_norm. rewrite sqsum_fv. congruence. Qed.

End MatrixFacts.

(** X6.  On a finite vector a missing matrix entry acts as the entry
    zero; on a vector with [NaN] components it does not: the missing entry
    still contributes zero where the entry zero would give [NaN]. *)
Theorem matMul_missing_entry :
  (forall e1 e2 e3 e4 a b c d,
     matMul ((e1, e2), (e3, e4)) (fv a b c d)
     = matMul (full (or_zero e1) (or_zero e2) (or_zero e3) (or_zero e4))
              (fv a b c d))
  /\ matMul ((None, None), (None, None)) nan_state = fv 0 0 0 0
  /\ matMul (fm 0 0 0 0 0 0 0 0) nan_state = nan_state.
Proof.
  split; [|split].
  - intros e1 e2 e3 e4 a b c d. unfold matMul, full, fv. simpl fst. simpl snd.
    fold (fc a b) (fc c d). rewrite !entry_times_or_zero. reflexivity.
  - unfold matMul, nan_state, fv, add, C. simpl. repeat f_equal; lra.
  - reflexivity.
Qed.

(** X7.  Normalization returns a normalized state as it is, and on the
    zero vector it divides by zero and returns [NaN] in every component. *)
Theorem norm_fixes_normalized :
  (forall st, unit_norm st -> norm st = st)
  /\ norm (fv 0 0 0 0) = nan_state.
Proof.
  split; [|exact norm_zero_vector].
  intros st Hu. destruct (unit_norm_inv st Hu) as (a & b & c & d & -> & E).
  apply norm_fv_unit. exact E.
Qed.

(** The claim X7 at the state with the four parts 1/2. *)
Lemma norm_fixes_normalized_witness :
  unit_norm (fv (1 / 2) (1 / 2) (1 / 2) (1 / 2))
  /\ norm (fv (1 / 2) (1 / 2) (1 / 2) (1 / 2)) = fv (1 / 2) (1 / 2) (1 / 2) (1 / 2).
Proof.
  assert (U : unit_norm (fv (1 / 2) (1 / 2) (1 / 2) (1 / 2)))
    by (apply unit_norm_fv; lra).
  split; [exact U|]. exact (proj1 norm_fixes_normalized _ U).
Defined.

(** X8.  The gate table is consistent: each entry is stored under its own
    name, looking that name up returns the entry, the name is not one
    inherited from [Object.prototype], and the entry's matrix has its four
    entries present and finite. *)
Theorem GATES_consistent (k : string) (g : gate_def) :
  In (k, g) GATES ->
  name g = k
  /\ GATES_get k = LGate g
  /\ ~ In k Object_prototype
  /\ exists ar ai br bi cr ci dr di, matrix g = fm ar ai br bi cr ci dr di.
Proof.
  simpl.
  intros [E | [E | [E | [E | [E | [E | []]]]]]]; injection E as <- <-;
    (split; [reflexivity|]); (split; [reflexivity|]);
    (split; [simpl; intros H;
             repeat (destruct H as [H | H]; [discriminate|]); exact H|]).
  - rewrite matrix_I. do 8 eexists. reflexivity.
  - rewrite matrix_X. do 8 eexists. reflexivity.
  - rewrite matrix_Z. do 8 eexists. reflexivity.
  - rewrite matrix_H. do 8 eexists. reflexivity.
  - rewrite matrix_S. do 8 eexists. reflexivity.
  - rewrite matrix_T. do 8 eexists. reflexivity.
Qed.

(** The claim X8 at the entry [S]. *)
Lemma GATES_consistent_witness :
  In ("S", gate_S) GATES /\ name gate_S = "S" /\ GATES_get "S" = LGate gate_S.
Proof.
  assert (H : In ("S", gate_S) GATES) by (simpl; tauto).
  split; [exact H|].
  pose proof (GATES_consistent "S" gate_S H) as (H1 & H2 & _).
  split; assumption.
Defined.

(** X9.  The matrices of [I], [X], [Z] and [S] keep the sum of the squared
    magnitudes of every finite vector: the product holds the same parts,
    exchanged or negated. *)
Theorem matMul_keeps_squared_magnitudes (g : gate_def) (a b c d : R) :
  In g [gate_I; gate_X; gate_Z; gate_S] ->
  sqsum (matMul (matrix g) (fv a b c d)) = sqsum (fv a b c d).
Proof.
  intros Hg.
  destruct (matMul_permutes g a b c d Hg) as [-> | [-> | [-> | ->]]];
    rewrite !sqsum_fv; f_equal; ring.
Qed.

(** The claim X9 at the gate [S] and the vector (3, 4 i). *)
Lemma matMul_keeps_squared_magnitudes_witness :
  In gate_S [gate_I; gate_X; gate_Z; gate_S]
  /\ sqsum (matMul (matrix gate_S) (fv 3 0 0 4)) = sqsum (fv 3 0 0 4).
Proof.
  assert (H : In gate_S [gate_I; gate_X; gate_Z; gate_S]) by (simpl; tauto).
  split; [exact H|]. exact (matMul_keeps_squared_magnitudes gate_S 3 0 0 4 H).
Defined.

(* ------------------------------------------------------------------ *)
(** ** The gates on states *)

Section GatesOnStates.

(** [H] sends a finite state with a nonzero first amplitude to a state
    with two equal amplitudes of squared magnitude 1/2. *)
Lemma applyGateName_H_balanced a b c d :
  0 < a * a + b * b ->
  exists x y,
    applyGateName "H" (fv a b c d) = Ok (fv x y x y) /\ x * x + y * y = 1 / 2.
Proof.
  intros Hm. rewrite applyGateName_H, matMul_H_fv.
  pose proof inv_sqrt2_sq as Hq. set (q := 1 / sqrt 2) in *.
  set (m := a * a + b * b) in *.
  assert (Hs : q * a * (q * a) + q * b * (q * b) + (q * a * (q * a) + q * b * (q * b))
               = m).
  { transitivity (2 * (q * q) * m); [unfold m; ring|]. rewrite Hq. lra. }
  rewrite norm_fv by (rewrite Hs; exact Hm). rewrite Hs.
  pose proof (sqrt_lt_R0 m Hm) as Hr. pose proof (sqrt_sqrt m ltac:(lra)) as Hrr.
  set (r := sqrt m) in *.
  exists (q * a * (1 / r)), (q * b * (1 / r)). split; [reflexivity|].
  transitivity (q * q * m * (1 / (r * r))); [unfold m; field; lra|].
  rewrite Hq, Hrr. field. lra.
Qed.

Lemma applyGateName_nan gname :
  in_table gname -> applyGateName gname nan_state = Ok nan_state.
Proof.
  intros H. apply in_table_cases in H.
  destruct H as [-> | [-> | [-> | [-> | [-> | ->]]]]].
  - rewrite applyGateName_I, matrix_I. reflexivity.
  - rewrite applyGateName_X, matrix_X. reflexivity.
  - rewrite applyGateName_Z, matrix_Z. reflexivity.
  - rewrite applyGateName_H, matrix_H. reflexivity.
  - rewrite applyGateName_S, matrix_S. reflexivity.
  - rewrite applyGateName_T, matrix_T. reflexivity.
Qed.

End GatesOnStates.

(** X11.  On a normalized state, [I], [Z] and [S] return a state with the
    same first amplitude and the same squared magnitude of the second, so
    a measurement that follows draws the same outcome from the same
    sample; [X] exchanges the two amplitudes. *)
Theorem pauli_gates_and_probabilities (st : vec) :
  unit_norm st ->
  (forall gname,
     gname = "I" \/ gname = "Z" \/ gname = "S" ->
     exists st',
       applyGateName gname st = Ok st'
       /\ fst st' = fst st
       /\ abs2 (snd st') = abs2 (snd st)
       /\ forall r s, measurement (measure r (setState st' s))
                      = measurement (measure r (setState st s)))
  /\ applyGateName "X" st = Ok (snd st, fst st).
Proof.
  intros Hu. destruct (unit_norm_inv st Hu) as (a & b & c & d & -> & E).
  split.
  - assert (M : forall st', fst st' = fst (fv a b c d) ->
                forall r s, measurement (measure r (setState st' s))
                            = measurement (measure r (setState (fv a b c d) s))).
    { intros st' Hf r s. unfold measure. simpl. rewrite Hf. reflexivity. }
    intros gname [-> | [-> | ->]].
    + rewrite applyGateName_I_fv by exact E. eexists. split; [reflexivity|].
      split; [reflexivity|]. split; [reflexivity|]. apply M. reflexivity.
    + rewrite applyGateName_Z_fv by exact E. eexists. split; [reflexivity|].
      split; [reflexivity|]. split; [|apply M; reflexivity].
      unfold abs2, fv, C. simpl. f_equal. ring.
    + rewrite applyGateName_S_fv by exact E. eexists. split; [reflexivity|].
      split; [reflexivity|]. split; [|apply M; reflexivity].
      unfold abs2, fv, C. simpl. f_equal. ring.
  - rewrite applyGateName_X_fv by exact E. reflexivity.
Qed.

(** The claim X11 at basis state 1. *)
Lemma pauli_gates_and_probabilities_witness :
  unit_norm one /\ applyGateName "X" one = Ok zero.
Proof.
  split; [exact one_unit|].
  exact (proj2 (pauli_gates_and_probabilities one one_unit)).
Defined.

(** X12.  On a normalized state, [S] applied twice is [Z], and [S] applied
    four times gives the state back. *)
Theorem S_powers (st : vec) :
  unit_norm st ->
  (st1 <- applyGateName "S" st ;; applyGateName "S" st1) = applyGateName "Z" st
  /\ replay ["S"; "S"; "S"; "S"] st = Ok st.
Proof.
  intros Hu. destruct (unit_norm_inv st Hu) as (a & b & c & d & -> & E).
  split.
  - rewrite applyGateName_S_fv by exact E. cbn [bind].
    rewrite applyGateName_S_fv by lra.
    rewrite applyGateName_Z_fv by exact E. reflexivity.
  - cbn [replay].
    rewrite applyGateName_S_fv by exact E. cbn [bind].
    rewrite applyGateName_S_fv by lra. cbn [bind].
    rewrite applyGateName_S_fv by lra. cbn [bind].
    rewrite applyGateName_S_fv by lra. cbn [bind].
    f_equal. apply fv_ext; lra.
Qed.

(** The claim X12 at the state with the four parts 1/2. *)
Lemma S_powers_witness :
  unit_norm (fv (1 / 2) (1 / 2) (1 / 2) (1 / 2))
  /\ replay ["S"; "S"; "S"; "S"] (fv (1 / 2) (1 / 2) (1 / 2) (1 / 2))
     = Ok (fv (1 / 2) (1 / 2) (1 / 2) (1 / 2)).
Proof.
  assert (U : unit_norm (fv (1 / 2) (1 / 2) (1 / 2) (1 / 2)))
    by (apply unit_norm_fv; lra).
  split; [exact U|]. exact (proj2 (S_powers _ U)).
Defined.

(** X14.  The state whose components are all [NaN] is returned unchanged
    by every gate of the table, so no circuit of such gates leaves it; the
    circuit [X, H] reaches it from basis state 0, and so does every
    circuit of table gates that starts with [X, H]. *)
Theorem nan_state_is_absorbing (gs : list string) :
  Forall in_table gs ->
  replay gs nan_state = Ok nan_state
  /\ replay ("X" :: "H" :: gs) zero = Ok nan_state.
Proof.
  intros Hgs.
  assert (R : replay gs nan_state = Ok nan_state).
  { induction Hgs as [|g gs Hg _ IH]; [reflexivity|].
    cbn [replay]. rewrite applyGateName_nan by exact Hg. exact IH. }
  split; [exact R|].
  cbn [replay]. rewrite zero_fv, applyGateName_X_fv by lra. cbn [bind].
  rewrite applyGateName_H, matMul_H_fv.
  rewrite (fv_ext _ _ _ _ 0 0 0 0) by lra.
  rewrite norm_zero_vector. cbn [bind]. exact R.
Qed.

(** The claim X14 at the circuit [X, H, Z, X]. *)
Lemma nan_state_is_absorbing_witness :
  Forall in_table ["Z"; "X"] /\ replay ["X"; "H"; "Z"; "X"] zero = Ok nan_state.
Proof.
  assert (H : Forall in_table ["Z"; "X"]).
  { repeat constructor; unfold in_table; simpl; tauto. }
  split; [exact H|]. exact (proj2 (nan_state_is_absorbing ["Z"; "X"] H)).
Defined.

(* ------------------------------------------------------------------ *)
(** ** The handlers together *)

Section Handlers.

Lemma trace_app gs g :
  forall st,
    trace (gs ++ [g]) st
    = es <- trace gs st ;;
      st1 <- replay gs st ;;
      st' <- applyGateName g st1 ;;
      Ok (es ++ [Entry.mk g st'])%list.
Proof.
  induction gs as [|g0 gs IH]; intros st; simpl.
  - destruct (applyGateName g st); reflexivity.
  - destruct (applyGateName g0 st) as [st0|e]; simpl; [|reflexivity].
    rewrite IH.
    destruct (trace gs st0) as [es|e]; simpl; [|reflexivity].
    destruct (replay gs st0) as [st1|e]; simpl; [|reflexivity].
    destruct (applyGateName g st1); reflexivity.
Qed.

Lemma last_snoc {A} (l : list A) (x d : A) : last (l ++ [x]) d = x.
Proof.
  induction l as [|y l IH]; [reflexivity|].
  simpl. destruct (l ++ [x])%list eqn:E; [|exact IH].
  destruct l; discriminate.
Qed.

(** A gate application throws for the inherited names only. *)
Lemma applyGateName_returns gname st :
  ~ In gname Object_prototype -> exists st', applyGateName gname st = Ok st'.
Proof.
  intros Hp. unfold applyGateName, GATES_get.
  destruct (own_property gname GATES) as [g|]; [eexists; reflexivity|].
  destruct (existsb (String.eqb gname) Object_prototype) eqn:E;
    [|eexists; reflexivity].
  apply existsb_exists in E. destruct E as [k [Hk E]].
  apply String.eqb_eq in E. subst k. contradiction.
Qed.

Lemma replay_throws_iff gs :
  forall st,
    replay gs st = Throw TypeError <-> Exists (fun g => In g Object_prototype) gs.
Proof.
  induction gs as [|g gs IH]; intros st; cbn [replay].
  - split; [discriminate|intros H; inversion H].
  - destruct (in_dec string_dec g Object_prototype) as [Hin | Hout].
    + rewrite applyGateName_inherited by exact Hin. cbn [bind].
      split; [intros _; left; exact Hin|reflexivity].
    + destruct (applyGateName_returns g st Hout) as [st' ->]. cbn [bind].
      rewrite IH. split; [intros H; right; exact H|].
      intros H. inversion H; subst; [contradiction|assumption].
Qed.

(** A gate application that is neither [H] nor throws keeps a normalized
    state normalized. *)
Lemma applyGateName_not_H_unit gname st :
  gname <> "H" -> ~ In gname Object_prototype -> unit_norm st ->
  exists st', applyGateName gname st = Ok st' /\ unit_norm st'.
Proof.
  intros HH Hp Hu.
  destruct (in_dec string_dec gname (map fst GATES)) as [Hin | Hout].
  - apply applyGateName_keeps_unit_norm; [exact Hin|exact Hu|left; exact HH].
  - rewrite applyGateName_undefined by assumption. eauto.
Qed.

Lemma trace_unit gs :
  Forall (fun g => g <> "H" /\ ~ In g Object_prototype) gs ->
  forall st, unit_norm st ->
    exists es, trace gs st = Ok es
               /\ Forall (fun e => unit_norm (Entry.state e)) es
               /\ unit_norm (last (map Entry.state es) st).
Proof.
  induction 1 as [|g gs [HH Hp] _ IH]; intros st Hu; cbn [trace].
  - exists []. repeat split; [constructor|exact Hu].
  - destruct (applyGateName_not_H_unit g st HH Hp Hu) as (st1 & -> & U1).
    cbn [bind]. destruct (IH st1 U1) as (es & -> & Hes & Hl). cbn [bind].
    eexists. split; [reflexivity|]. split; [constructor; assumption|].
    destruct es as [|e es]; [exact U1|].
    change (unit_norm (last (map Entry.state (e :: es)) st)).
    cbn [map] in *. rewrite (last_default _ _ st st1). exact Hl.
Qed.

(** Running the circuit [X] on the initial session. *)
Lemma stepCircuit_X_init :
  stepCircuit (setCircuit ["X"] init)
  = Ok (mkSession one ["X"] [Entry.mk "X" one] "H" None).
Proof.
  rewrite stepCircuit_trace. cbn [circuit setCircuit trace].
  rewrite zero_fv, applyGateName_X_fv by lra. reflexivity.
Qed.

(** Pressing the buttons [X] and [Z] on the initial session. *)
Lemma pressButtons_XZ_init :
  pressButtons ["X"; "Z"] init
  = Ok (mkSession (fv 0 0 (- 1) (- 0)) [] [] "H" None).
Proof.
  cbn [pressButtons]. unfold applyButton. cbn [state init].
  rewrite zero_fv, applyGateName_X_fv by lra. cbn [bind state setState].
  rewrite applyGateName_Z_fv by lra. reflexivity.
Qed.

End Handlers.

(** X15.  Running the circuit twice is the same as running it once: the
    session a successful run returns is returned again by the next run. *)
Theorem stepCircuit_idempotent (s s' : session) :
  stepCircuit s = Ok s' -> stepCircuit s' = Ok s'.
Proof.
  rewrite !stepCircuit_trace.
  destruct (trace (circuit s) zero) as [es|e] eqn:E; cbn [bind]; [|discriminate].
  intros [= <-]. cbn [circuit setState setHistory]. rewrite E. reflexivity.
Qed.

(** The claim X15 at the circuit [X]: the session its run returns, with
    state basis state 1 and one history entry, is returned by a second run. *)
Lemma stepCircuit_idempotent_witness :
  stepCircuit (setCircuit ["X"] init)
  = Ok (mkSession one ["X"] [Entry.mk "X" one] "H" None)
  /\ stepCircuit (mkSession one ["X"] [Entry.mk "X" one] "H" None)
     = Ok (mkSession one ["X"] [Entry.mk "X" one] "H" None).
Proof.
  split; [exact stepCircuit_X_init|].
  exact (stepCircuit_idempotent _ _ stepCircuit_X_init).
Defined.

(** X16.  After a successful run, clicking step [index] of the circuit
    shows the state the history recorded for that step: [runStep] sets
    the state to the state of history entry [index], whose gate is the
    gate at that position of the circuit. *)
Theorem runStep_shows_history (s s' : session) (index : Z) :
  stepCircuit s = Ok s' ->
  (0 <= index < Z.of_nat (List.length (circuit s)))%Z ->
  exists e,
    nth_error (history s') (Z.to_nat index) = Some e
    /\ nth_error (circuit s') (Z.to_nat index) = Some (Entry.gate e)
    /\ runStep index s' = Ok (setState (Entry.state e) s').
Proof.
  rewrite stepCircuit_trace.
  destruct (trace (circuit s) zero) as [es|e] eqn:E; cbn [bind]; [|discriminate].
  intros [= <-] Hi.
  destruct (nth_error (circuit s) (Z.to_nat index)) as [g|] eqn:G.
  - destruct (trace_nth _ _ _ _ g E G) as (sti & Hr & Hn).
    exists (Entry.mk g sti). cbn [history circuit setState setHistory Entry.gate Entry.state].
    split; [exact Hn|]. split; [exact G|].
    rewrite runStep_replay. cbn [circuit setState setHistory].
    replace (Z.to_nat (index + 1)) with (S (Z.to_nat index)) by lia.
    rewrite Hr. reflexivity.
  - apply nth_error_None in G. lia.
Qed.

(** The claim X16 at step 0 of the circuit [X]. *)
Lemma runStep_shows_history_witness :
  stepCircuit (setCircuit ["X"] init)
  = Ok (mkSession one ["X"] [Entry.mk "X" one] "H" None)
  /\ (0 <= 0 < Z.of_nat (List.length (circuit (setCircuit ["X"] init))))%Z
  /\ exists e,
       nth_error [Entry.mk "X" one] 0 = Some e
       /\ runStep 0 (mkSession one ["X"] [Entry.mk "X" one] "H" None)
          = Ok (setState (Entry.state e) (mkSession one ["X"] [Entry.mk "X" one] "H" None)).
Proof.
  assert (E : stepCircuit (setCircuit ["X"] init)
              = Ok (mkSession one ["X"] [Entry.mk "X" one] "H" None)).
  { rewrite stepCircuit_trace. cbn [circuit setCircuit trace].
    rewrite zero_fv, applyGateName_X_fv by lra. reflexivity. }
  assert (Hi : (0 <= 0 < Z.of_nat (List.length (circuit (setCircuit ["X"] init))))%Z)
    by (simpl; lia).
  split; [exact E|]. split; [exact Hi|].
  destruct (runStep_shows_history _ _ 0 E Hi) as (en & H1 & _ & H2).
  exists en. split; assumption.
Defined.

(** X17.  Adding the selected gate to a circuit that ran successfully and
    running again keeps the recorded history and appends one entry: the
    selected gate with the result of applying it to the state the earlier
    run ended in, which becomes the state.  If that application throws,
    so does the run. *)
Theorem stepCircuit_after_addGate (s s1 : session) :
  stepCircuit s = Ok s1 ->
  match applyGateName (selectedGate s) (state s1) with
  | Ok st' =>
      stepCircuit (addGateToCircuit s)
      = Ok (mkSession st'
                      (circuit s ++ [selectedGate s])
                      (history s1 ++ [Entry.mk (selectedGate s) st'])
                      (selectedGate s) (measurement s))
  | Throw e => stepCircuit (addGateToCircuit s) = Throw e
  end.
Proof.
  rewrite !stepCircuit_trace.
  destruct (trace (circuit s) zero) as [es|e] eqn:E; cbn [bind]; [|discriminate].
  intros [= <-]. cbn [state history setState setHistory].
  unfold addGateToCircuit. cbn [circuit setCircuit]. rewrite trace_app, E.
  cbn [bind]. rewrite (trace_last _ _ _ E). cbn [bind].
  destruct (applyGateName (selectedGate s) (last (map Entry.state es) zero))
    as [st'|e]; cbn [bind]; [|reflexivity].
  rewrite map_app. cbn [map]. rewrite last_snoc. reflexivity.
Qed.

(** The claim X17 at the initial session, whose selected gate is [H]. *)
Lemma stepCircuit_after_addGate_witness :
  stepCircuit init = Ok init
  /\ match applyGateName "H" zero with
     | Ok st' =>
         stepCircuit (addGateToCircuit init)
         = Ok (mkSession st' ["H"] [Entry.mk "H" st'] "H" None)
     | Throw e => stepCircuit (addGateToCircuit init) = Throw e
     end.
Proof.
  assert (H : stepCircuit init = Ok init) by reflexivity.
  split; [exact H|]. exact (stepCircuit_after_addGate init init H).
Defined.

(** X18.  With a negative index, or on an empty circuit, [runStep] runs no
    gate: it sets the state to basis state 0 and changes nothing else. *)
Theorem runStep_nothing_to_run (s : session) (index : Z) :
  (index < 0)%Z \/ circuit s = [] ->
  runStep index s = Ok (setState zero s).
Proof.
  intros H. rewrite runStep_replay.
  destruct H as [H | H].
  - replace (Z.to_nat (index + 1)) with 0%nat by lia. reflexivity.
  - rewrite H, firstn_nil. reflexivity.
Qed.

(** The claim X18 at index -1 of the circuit [X]. *)
Lemma runStep_nothing_to_run_witness :
  ((-1 < 0)%Z \/ circuit (setCircuit ["X"] init) = [])
  /\ runStep (-1) (setCircuit ["X"] init) = Ok (setState zero (setCircuit ["X"] init)).
Proof.
  assert (H : (-1 < 0)%Z \/ circuit (setCircuit ["X"] init) = []) by (left; lia).
  split; [exact H|]. exact (runStep_nothing_to_run _ _ H).
Defined.

(** X19.  Clear forgets everything but the selected gate: whatever was
    added, run, stepped or measured before, the cleared session is the
    same, and on it Run and every step click change nothing. *)
Theorem clearCircuit_resets (s : session) :
  clearCircuit s = mkSession zero [] [] (selectedGate s) None
  /\ clearCircuit (addGateToCircuit s) = clearCircuit s
  /\ (forall r, clearCircuit (measure r s) = clearCircuit s)
  /\ (forall s', stepCircuit s = Ok s' -> clearCircuit s' = clearCircuit s)
  /\ (forall i s', runStep i s = Ok s' -> clearCircuit s' = clearCircuit s)
  /\ stepCircuit (clearCircuit s) = Ok (clearCircuit s)
  /\ (forall i, runStep i (clearCircuit s) = Ok (clearCircuit s)).
Proof.
  repeat split.
  - intros s'. rewrite stepCircuit_trace.
    destruct (trace (circuit s) zero); cbn [bind]; [|discriminate].
    intros [= <-]. reflexivity.
  - intros i s'. rewrite runStep_replay.
    destruct (replay _ zero); cbn [bind]; [|discriminate].
    intros [= <-]. reflexivity.
  - intros i. rewrite runStep_replay. cbn [circuit clearCircuit setMeasurement
      setState setHistory setCircuit]. rewrite firstn_nil. reflexivity.
Qed.

(** X20.  Measuring is repeatable: once measured, a second measurement
    with any sample of [0, 1) records the same outcome and leaves the same
    session. *)
Theorem measure_repeatable (r1 r2 : R) (s : session) :
  0 <= r2 < 1 ->
  measure r2 (measure r1 s) = measure r1 s.
Proof.
  intros Hr. unfold measure at 2 3.
  destruct (nltb (Fin r1) (abs2 (fst (state s)))); cbn [Nat.eqb];
    unfold measure; cbn [state setState setMeasurement fst zero one abs2 re im C
                          nmul nadd nltb].
  - rewrite Rltb_true by lra. reflexivity.
  - rewrite Rltb_false by lra. reflexivity.
Qed.

(** The claim X20 at the samples 0.9 and 0.1 on the initial session. *)
Lemma measure_repeatable_witness :
  0 <= 1 / 10 < 1
  /\ measure (1 / 10) (measure (9 / 10) init) = measure (9 / 10) init.
Proof.
  assert (H : 0 <= 1 / 10 < 1) by lra.
  split; [exact H|]. exact (measure_repeatable (9 / 10) (1 / 10) init H).
Defined.

(** X21.  Whatever the state and the sample, a measurement leaves one of
    the two basis states, the one its recorded outcome names, and so a
    normalized state; on the all-[NaN] state the comparison with the
    sample is false and the outcome is 1. *)
Theorem measure_leaves_basis_state (r : R) (s : session) :
  ((measurement (measure r s) = Some 0%nat /\ state (measure r s) = zero)
   \/ (measurement (measure r s) = Some 1%nat /\ state (measure r s) = one))
  /\ unit_norm (state (measure r s))
  /\ (state s = nan_state ->
      measurement (measure r s) = Some 1%nat /\ state (measure r s) = one).
Proof.
  unfold measure. split; [|split].
  - destruct (nltb (Fin r) (abs2 (fst (state s)))); [left|right]; split; reflexivity.
  - destruct (nltb (Fin r) (abs2 (fst (state s)))); [exact zero_unit|exact one_unit].
  - intros ->. split; reflexivity.
Qed.

(** X22.  A run throws exactly when the circuit holds a name inherited
    from [Object.prototype].  When it holds no such name and no [H], the
    run succeeds and every state of the history, and the final state, is
    normalized. *)
Theorem stepCircuit_throws_or_normalized (s : session) :
  (stepCircuit s = Throw TypeError
   <-> Exists (fun g => In g Object_prototype) (circuit s))
  /\ (Forall (fun g => g <> "H" /\ ~ In g Object_prototype) (circuit s) ->
      exists s',
        stepCircuit s = Ok s'
        /\ Forall (fun e => unit_norm (Entry.state e)) (history s')
        /\ unit_norm (state s')).
Proof.
  split.
  - rewrite <- (replay_throws_iff (circuit s) zero), <- stepCircuit_state.
    destruct (stepCircuit s) as [s'|[]]; cbn; split; congruence.
  - intros H. rewrite stepCircuit_trace.
    destruct (trace_unit _ H zero zero_unit) as (es & -> & Hes & Hl).
    cbn [bind]. eexists. split; [reflexivity|]. split; assumption.
Qed.

(** The claim X22 at the circuit [X, T, S]. *)
Lemma stepCircuit_throws_or_normalized_witness :
  Forall (fun g => g <> "H" /\ ~ In g Object_prototype)
         (circuit (setCircuit ["X"; "T"; "S"] init))
  /\ exists s',
       stepCircuit (setCircuit ["X"; "T"; "S"] init) = Ok s'
       /\ unit_norm (state s').
Proof.
  assert (H : Forall (fun g => g <> "H" /\ ~ In g Object_prototype)
                     (circuit (setCircuit ["X"; "T"; "S"] init))).
  { repeat constructor; try discriminate;
      simpl; intros K; repeat (destruct K as [K | K]; [discriminate|]); exact K. }
  split; [exact H|].
  destruct (proj2 (stepCircuit_throws_or_normalized _) H) as (s' & H1 & _ & H2).
  exists s'. split; assumption.
Defined.

(** X23.  Pressing the quick-apply buttons one after the other from a
    reset session reaches the state that running the same names as a
    circuit reaches, and throws when that run throws; the buttons leave
    the circuit and the history as they were. *)
Theorem pressButtons_as_circuit (gs : list string) (s : session) :
  rmap state (pressButtons gs (resetButton s))
  = rmap state (stepCircuit (setCircuit gs s))
  /\ (forall s', pressButtons gs s = Ok s' ->
        circuit s' = circuit s /\ history s' = history s
        /\ measurement s' = measurement s).
Proof.
  assert (P : forall gs s,
            pressButtons gs s = st <- replay gs (state s) ;; Ok (setState st s)).
  { clear. induction gs as [|g gs IH]; intros s; cbn [pressButtons replay].
    - destruct s; reflexivity.
    - unfold applyButton.
      destruct (applyGateName g (state s)) as [st1|e]; cbn [bind]; [|reflexivity].
      rewrite IH. cbn [state setState].
      destruct (replay gs st1); reflexivity. }
  split.
  - rewrite stepCircuit_state, P. cbn [state resetButton setState circuit setCircuit].
    destruct (replay gs zero); reflexivity.
  - intros s'. rewrite P. destruct (replay gs (state s)); cbn [bind]; [|discriminate].
    intros [= <-]. repeat split.
Qed.

(* ------------------------------------------------------------------ *)
(** ** The Bloch projection *)

Section Bloch.

Lemma clamp_bounds x : -1 <= clamp x <= 1.
Proof.
  unfold clamp. split.
  - apply Rmin_glb; [lra|apply Rmax_l].
  - apply Rmin_l.
Qed.

Lemma clamp_nonneg x : 0 <= x -> 0 <= clamp x.
Proof.
  intros H. unfold clamp. apply Rmin_glb; [lra|].
  apply Rle_trans with x; [exact H|apply Rmax_r].
Qed.

Lemma stateToBlochAngles_fv sa sb a b c d :
  stateToBlochAngles sa sb (fv a b c d)
  = mkAngles (Fin (2 * acos (clamp (sqrt (a * a + b * b)))))
             (Fin (atan2_signed (im_neg sb) (re_neg sb) d c
                   - atan2_signed (im_neg sa) (re_neg sa) b a)).
Proof.
  unfold stateToBlochAngles, fv.
  change (abs2 (C (Fin a) (Fin b))) with (Fin (a * a + b * b)).
  rewrite nsqrt_Fin by nra. cbn [nmax nmin nacos]. fold (clamp (sqrt (a * a + b * b))).
  destruct (clamp_bounds (sqrt (a * a + b * b))) as [Hlo Hhi].
  rewrite !Rleb_true by assumption. reflexivity.
Qed.

Lemma acos_nonneg_le x : 0 <= x <= 1 -> acos x <= PI / 2.
Proof.
  intros H. destruct (Rle_dec (acos x) (PI / 2)) as [Hle | Hgt]; [exact Hle|].
  exfalso. pose proof (acos_bound x) as [_ Hpi]. pose proof PI_RGT_0 as Hp.
  assert (Hc : cos (acos x) < 0) by (apply cos_lt_0; lra).
  rewrite cos_acos in Hc by lra. lra.
Qed.

End Bloch.

(** X26.  For every finite state, normalized or not, and whatever the
    sign bits of its zeros, the polar angle is a finite number between 0
    and PI; when the first amplitude has magnitude 1 or more the clamp
    makes it 0. *)
Theorem theta_range (sa sb : signs) (a b c d : R) :
  (exists t, theta (stateToBlochAngles sa sb (fv a b c d)) = Fin t /\ 0 <= t <= PI)
  /\ (1 <= a * a + b * b -> theta (stateToBlochAngles sa sb (fv a b c d)) = Fin 0).
Proof.
  rewrite stateToBlochAngles_fv. cbn [theta].
  set (m := sqrt (a * a + b * b)).
  assert (Hm : 0 <= m) by apply sqrt_pos.
  split.
  - eexists. split; [reflexivity|].
    pose proof (clamp_bounds m) as [_ Hhi]. pose proof (clamp_nonneg m Hm) as Hlo.
    pose proof (acos_bound (clamp m)) as [H0 _].
    pose proof (acos_nonneg_le (clamp m) (Logic.conj Hlo Hhi)) as H1.
    lra.
  - intros H1. f_equal.
    assert (Hm1 : 1 <= m).
    { unfold m. rewrite <- sqrt_1. apply sqrt_le_1_alt. exact H1. }
    unfold clamp. rewrite Rmax_right, Rmin_left, acos_1 by lra. lra.
Qed.

(* ------------------------------------------------------------------ *)
(** ** Stepping and the zero vector *)

Section Stepping.

Lemma replay_app gs1 gs2 :
  forall st, replay (gs1 ++ gs2) st = st1 <- replay gs1 st ;; replay gs2 st1.
Proof.
  induction gs1 as [|g gs1 IH]; intros st; cbn [replay app]; [reflexivity|].
  destruct (applyGateName g st) as [st0|e]; cbn [bind]; [apply IH|reflexivity].
Qed.

Lemma firstn_succ (c : list string) :
  forall i, (i < List.length c)%nat ->
    firstn (S i) c = (firstn i c ++ [nth i c undefined_key])%list.
Proof.
  induction c as [|g c IH]; intros i Hi; simpl in Hi; [lia|].
  destruct i as [|i]; [reflexivity|].
  change (g :: firstn (S i) c = g :: (firstn i c ++ [nth i c undefined_key])%list).
  f_equal. apply IH. lia.
Qed.

Lemma fv_not_nan a b c d : fv a b c d <> nan_state.
Proof. unfold fv, nan_state. intros H. discriminate H. Qed.

End Stepping.

(** X27.  Clicking the next step applies exactly one more gate: for two
    neighbouring positions of the circuit, [runStep] at the later one is
    [runStep] at the earlier one followed by the gate at the later
    position applied to the state. *)
Theorem runStep_next (s : session) (index : Z) :
  (0 <= index)%Z ->
  (index + 1 < Z.of_nat (List.length (circuit s)))%Z ->
  runStep (index + 1) s
  = s1 <- runStep index s ;;
    applyButton (nth (Z.to_nat (index + 1)) (circuit s) undefined_key) s1.
Proof.
  intros H0 H1. rewrite !runStep_replay.
  replace (Z.to_nat (index + 1 + 1)) with (S (Z.to_nat (index + 1))) by lia.
  rewrite firstn_succ by lia. rewrite replay_app.
  destruct (replay (firstn (Z.to_nat (index + 1)) (circuit s)) zero) as [st1|e];
    cbn [bind]; [|reflexivity].
  unfold applyButton. cbn [state setState replay].
  destruct (applyGateName _ st1); reflexivity.
Qed.

(** The claim X27 at the first two positions of the circuit [X, Z]. *)
Lemma runStep_next_witness :
  (0 <= 0)%Z
  /\ (0 + 1 < Z.of_nat (List.length (circuit (setCircuit ["X"; "Z"] init))))%Z
  /\ runStep (0 + 1) (setCircuit ["X"; "Z"] init)
     = s1 <- runStep 0 (setCircuit ["X"; "Z"] init) ;; applyButton "Z" s1.
Proof.
  assert (H0 : (0 <= 0)%Z) by lia.
  assert (H1 : (0 + 1 < Z.of_nat (List.length (circuit (setCircuit ["X"; "Z"] init))))%Z)
    by (simpl; lia).
  split; [exact H0|]. split; [exact H1|].
  exact (runStep_next (setCircuit ["X"; "Z"] init) 0 H0 H1).
Defined.

(** X29.  The table's [H] applied to a finite state returns the all-[NaN]
    state exactly when the first amplitude of the state is zero, whatever
    its second amplitude. *)
Theorem applyGateName_H_nan_iff (a b c d : R) :
  applyGateName "H" (fv a b c d) = Ok nan_state <-> a = 0 /\ b = 0.
Proof.
  split.
  - intros H.
    destruct (Req_dec_T (a * a + b * b) 0) as [E|E]; [split; nra|].
    exfalso.
    assert (Hm : 0 < a * a + b * b) by (assert (0 <= a * a + b * b) by nra; lra).
    destruct (applyGateName_H_balanced a b c d Hm) as (x & y & Hx & _).
    rewrite Hx in H. apply (fv_not_nan x y x y). congruence.
  - intros [-> ->]. rewrite applyGateName_H, matMul_H_fv.
    rewrite (fv_ext _ _ _ _ 0 0 0 0) by lra.
    rewrite norm_zero_vector. reflexivity.
Qed.

(* ------------------------------------------------------------------ *)
(** ** Instances *)

(** The claim X19 at the circuit [X] after its run: clearing the session
    that holds the circuit, one history entry and basis state 1 gives the
    empty session. *)
Lemma clearCircuit_resets_witness :
  stepCircuit (setCircuit ["X"] init)
  = Ok (mkSession one ["X"] [Entry.mk "X" one] "H" None)
  /\ clearCircuit (mkSession one ["X"] [Entry.mk "X" one] "H" None)
     = mkSession zero [] [] "H" None.
Proof.
  split; [exact stepCircuit_X_init|].
  exact (proj1 (proj2 (proj2 (proj2 (clearCircuit_resets (setCircuit ["X"] init)))))
               _ stepCircuit_X_init).
Defined.

(** The claim X23 with the buttons [X] and [Z] pressed on the initial
    session: the state reached is the one the circuit [X, Z] reaches, and
    circuit, history and measurement are those of the initial session. *)
Lemma pressButtons_as_circuit_witness :
  pressButtons ["X"; "Z"] init
  = Ok (mkSession (fv 0 0 (- 1) (- 0)) [] [] "H" None)
  /\ rmap state (pressButtons ["X"; "Z"] (resetButton init))
     = rmap state (stepCircuit (setCircuit ["X"; "Z"] init))
  /\ circuit (mkSession (fv 0 0 (- 1) (- 0)) [] [] "H" None) = circuit init
  /\ history (mkSession (fv 0 0 (- 1) (- 0)) [] [] "H" None) = history init
  /\ measurement (mkSession (fv 0 0 (- 1) (- 0)) [] [] "H" None) = measurement init.
Proof.
  split; [exact pressButtons_XZ_init|].
  split; [exact (proj1 (pressButtons_as_circuit ["X"; "Z"] init))|].
  exact (proj2 (pressButtons_as_circuit ["X"; "Z"] init) _ pressButtons_XZ_init).
Defined.

(** The claim X26 at a first amplitude of magnitude 2. *)
Lemma theta_range_witness :
  1 <= 2 * 2 + 0 * 0
  /\ theta (stateToBlochAngles (mkSigns false false) (mkSigns false false) (fv 2 0 0 0))
     = Fin 0.
Proof.
  assert (H : 1 <= 2 * 2 + 0 * 0) by lra.
  split; [exact H|].
  exact (proj2 (theta_range (mkSigns false false) (mkSigns false false) 2 0 0 0) H).
Defined.
